(** * Lap-based alarm stopwatch: the timer / alarm state machine

    A shallow embedding of the "current lap" variant of the stopwatch
    script (startStopwatch, pauseStopwatch, resetStopwatch,
    updateStopwatchDisplay, createLap, getLapElapsedTime, checkLapAlarms,
    updateLapAlarmDuration, toggleLapAlarm) and the properties of its
    clock, lap ledger and alarm evaluator; then of its text functions
    (formatTime, parseTimeString) and of the time computed by
    updateCurrentLapDisplay.

    Modelling conventions.
    - Timestamps and durations are JavaScript numbers holding integer
      milliseconds; they are modelled as [Z].
    - Every [Date.now()] the script performs is a parameter of the
      function that performs it, one parameter per call site, in program
      order.  The handle returned by [setInterval] is a parameter too.
    - The global [state] object is threaded through a small command
      monad that also collects the calls made to the outside world
      (audio element, local storage, console, interval timer) and models
      the [TypeError] raised by a property access on [undefined].
    - Writes to the page (textContent, class names, innerHTML, button
      enabling) do not feed back into [state]; the functions that only
      do that are kept as commands that return at once, so that the
      call structure of the script stays visible. *)

From Stdlib Require Import ZArith Lia Bool List.
From stdpp Require Import base numbers list.
From Stdlib Require Ascii String DecimalString DecimalNat.
Import Ascii.AsciiSyntax String.StringSyntax.

#[local] Delimit Scope string_scope with string.
#[local] Delimit Scope char_scope with char.
#[local] Open Scope Z_scope.

(** ** Data model *)

(** A lap object, as built at the two [const lap = { ... }] sites. *)
Record Lap : Type := mkLap {
  createdAt : Z;
  recordedTime : Z;
  alarmDuration : Z;
  triggered : bool;
  enabled : bool;
  isRecorded : bool
}.

(** The global [state] object.  [startTime], [currentLapStartTime] and
    [intervalId] start out as [null]. *)
Record State : Type := mkState {
  isRunning : bool;
  elapsedTime : Z;
  startTime : option Z;
  pausedTime : Z;
  currentLapStartTime : option Z;
  laps : list Lap;
  intervalId : option nat
}.

(** [state.defaultAlarmDurations] (milliseconds). *)
Definition defaultAlarmDurations : list Z :=
  [1 * 60 * 1000; 1 * 60 * 1000; 1 * 60 * 1000; 5 * 60 * 1000; 5 * 60 * 1000].

(** The literal [state] the script starts with. *)
Definition initialState : State :=
  {| isRunning := false; elapsedTime := 0; startTime := None;
     pausedTime := 0; currentLapStartTime := None; laps := [];
     intervalId := None |}.

(** One record of the array written by [saveLapsToStorage]. *)
Record SavedLap : Type := mkSavedLap {
  saved_createdAt : Z;
  saved_recordedTime : Z;
  saved_alarmDuration : Z;
  saved_triggered : bool;
  saved_enabled : bool
}.

(** Calls the script makes to its environment. *)
Inductive Event : Type :=
| ConsoleWarn
| AudioPlay
| AudioStop
| StorageSave (lapsData : list SavedLap)
| StorageClear
| SetInterval (handle : nat)
| ClearInterval (handle : option nat).

(** ** JavaScript value conventions *)

(** Numeric coercion of a nullable number: [null] counts as [0] in
    [Date.now() - state.startTime] and the like. *)
Definition toNumber (v : option Z) : Z :=
  match v with Some n => n | None => 0 end.

(** [arr[i]] for a numeric index: [undefined] outside [0 .. length-1]. *)
Definition index {A : Type} (arr : list A) (i : Z) : option A :=
  if i <? 0 then None else arr !! Z.to_nat i.

(** [v || fallback] on a possibly undefined number: [undefined] and [0]
    are falsy. *)
Definition orDefault (v : option Z) (fallback : Z) : Z :=
  match v with
  | Some n => if n =? 0 then fallback else n
  | None => fallback
  end.

(** ** Field updates *)

Definition set_isRunning (b : bool) (s : State) : State :=
  {| isRunning := b; elapsedTime := elapsedTime s; startTime := startTime s;
     pausedTime := pausedTime s; currentLapStartTime := currentLapStartTime s;
     laps := laps s; intervalId := intervalId s |}.

Definition set_elapsedTime (v : Z) (s : State) : State :=
  {| isRunning := isRunning s; elapsedTime := v; startTime := startTime s;
     pausedTime := pausedTime s; currentLapStartTime := currentLapStartTime s;
     laps := laps s; intervalId := intervalId s |}.

Definition set_startTime (v : option Z) (s : State) : State :=
  {| isRunning := isRunning s; elapsedTime := elapsedTime s; startTime := v;
     pausedTime := pausedTime s; currentLapStartTime := currentLapStartTime s;
     laps := laps s; intervalId := intervalId s |}.

Definition set_pausedTime (v : Z) (s : State) : State :=
  {| isRunning := isRunning s; elapsedTime := elapsedTime s; startTime := startTime s;
     pausedTime := v; currentLapStartTime := currentLapStartTime s;
     laps := laps s; intervalId := intervalId s |}.

Definition set_currentLapStartTime (v : option Z) (s : State) : State :=
  {| isRunning := isRunning s; elapsedTime := elapsedTime s; startTime := startTime s;
     pausedTime := pausedTime s; currentLapStartTime := v;
     laps := laps s; intervalId := intervalId s |}.

Definition set_laps (v : list Lap) (s : State) : State :=
  {| isRunning := isRunning s; elapsedTime := elapsedTime s; startTime := startTime s;
     pausedTime := pausedTime s; currentLapStartTime := currentLapStartTime s;
     laps := v; intervalId := intervalId s |}.

Definition set_intervalId (v : option nat) (s : State) : State :=
  {| isRunning := isRunning s; elapsedTime := elapsedTime s; startTime := startTime s;
     pausedTime := pausedTime s; currentLapStartTime := currentLapStartTime s;
     laps := laps s; intervalId := v |}.

Definition set_recordedTime (v : Z) (l : Lap) : Lap :=
  {| createdAt := createdAt l; recordedTime := v; alarmDuration := alarmDuration l;
     triggered := triggered l; enabled := enabled l; isRecorded := isRecorded l |}.

Definition set_alarmDuration (v : Z) (l : Lap) : Lap :=
  {| createdAt := createdAt l; recordedTime := recordedTime l; alarmDuration := v;
     triggered := triggered l; enabled := enabled l; isRecorded := isRecorded l |}.

Definition set_triggered (v : bool) (l : Lap) : Lap :=
  {| createdAt := createdAt l; recordedTime := recordedTime l;
     alarmDuration := alarmDuration l;
     triggered := v; enabled := enabled l; isRecorded := isRecorded l |}.

Definition set_enabled (v : bool) (l : Lap) : Lap :=
  {| createdAt := createdAt l; recordedTime := recordedTime l;
     alarmDuration := alarmDuration l;
     triggered := triggered l; enabled := v; isRecorded := isRecorded l |}.

Definition set_isRecorded (v : bool) (l : Lap) : Lap :=
  {| createdAt := createdAt l; recordedTime := recordedTime l;
     alarmDuration := alarmDuration l;
     triggered := triggered l; enabled := enabled l; isRecorded := v |}.

(** ** The command monad *)

(** What a call does: it returns a value, or a [TypeError] escapes from
    it; either way the mutations made so far stay in [state] and the
    environment calls made so far have happened. *)
Inductive Outcome (A : Type) : Type :=
| Returned (a : A) (s : State) (evs : list Event)
| Threw (s : State) (evs : list Event).
Arguments Returned {A} a s evs.
Arguments Threw {A} s evs.

Definition Cmd (A : Type) : Type := State -> Outcome A.

Definition ret {A : Type} (a : A) : Cmd A := fun s => Returned a s [].

Definition bind {A B : Type} (c : Cmd A) (k : A -> Cmd B) : Cmd B :=
  fun s =>
    match c s with
    | Returned a s1 evs1 =>
        match k a s1 with
        | Returned b s2 evs2 => Returned b s2 (evs1 ++ evs2)
        | Threw s2 evs2 => Threw s2 (evs1 ++ evs2)
        end
    | Threw s1 evs1 => Threw s1 evs1
    end.

#[local] Instance cmd_ret : MRet Cmd := @ret.
#[local] Instance cmd_bind : MBind Cmd := fun A B k c => bind c k.

Definition get : Cmd State := fun s => Returned s s [].
Definition modify (f : State -> State) : Cmd unit := fun s => Returned tt (f s) [].
Definition emit (e : Event) : Cmd unit := fun s => Returned tt s [e].
Definition skip : Cmd unit := ret tt.

(** Reading a property of [state.laps[i]]: a [TypeError] when the
    element is [undefined]. *)
Definition lapAt (i : Z) : Cmd Lap :=
  fun s =>
    match index (laps s) i with
    | Some lap => Returned lap s []
    | None => Threw s []
    end.

(** Assigning to properties of the object [state.laps[i]] (also through
    an alias such as [currentLap]): the array element itself changes. *)
Definition updateLap (i : Z) (f : Lap -> Lap) : Cmd unit :=
  lap ← lapAt i;
  modify (fun s => set_laps (<[Z.to_nat i := f lap]> (laps s)) s).

Definition stateOf {A : Type} (o : Outcome A) : State :=
  match o with Returned _ s _ => s | Threw s _ => s end.

Definition eventsOf {A : Type} (o : Outcome A) : list Event :=
  match o with Returned _ _ evs => evs | Threw _ evs => evs end.

Definition valueOf {A : Type} (o : Outcome A) : option A :=
  match o with Returned a _ _ => Some a | Threw _ _ => None end.

(** ** Environment and display calls *)

(** [playAlarmSound]: rewinds and plays the audio element; a refusal is
    caught and logged inside the function. *)
Definition playAlarmSound : Cmd unit := emit AudioPlay.

(** [stopAlarmSound]: pauses and rewinds the audio element. *)
Definition stopAlarmSound : Cmd unit := emit AudioStop.

(** The object [saveLapsToStorage] builds for one lap. *)
Definition savedOf (lap : Lap) : SavedLap :=
  {| saved_createdAt := createdAt lap;
     saved_recordedTime := recordedTime lap;
     saved_alarmDuration := alarmDuration lap;
     saved_triggered := triggered lap;
     saved_enabled := enabled lap |}.

(** [saveLapsToStorage]: serialises five fields of every lap. *)
Definition saveLapsToStorage : Cmd unit :=
  s ← get;
  emit (StorageSave (map savedOf (laps s))).

(** [clearLapsHistory]. *)
Definition clearLapsHistory : Cmd unit := emit StorageClear.

(** [renderLaps], [updateLapUI] and [updateCurrentLapDisplay] only write
    to the page. *)
Definition renderLaps : Cmd unit := skip.
Definition updateLapUI (lapIndex : Z) : Cmd unit := skip.
Definition updateCurrentLapDisplay (now : Z) : Cmd unit := skip.

(** ** Core stopwatch logic *)

(** The lap object literal of [startStopwatch] and [createLap]. *)
Definition newLap (now : Z) (duration : Z) : Lap :=
  {| createdAt := now; recordedTime := 0; alarmDuration := duration;
     triggered := false; enabled := true; isRecorded := false |}.

(** [startStopwatch]; [now1] is the reading used for [startTime], [now2]
    the one used for the first lap's [createdAt], [handle] the value
    returned by [setInterval]. *)
Definition startStopwatch (now1 now2 : Z) (handle : nat) : Cmd unit :=
  s ← get;
  if isRunning s then skip else
  modify (set_isRunning true);;
  modify (set_startTime (Some (now1 - pausedTime s)));;
  (if currentLapStartTime s is None
   then modify (fun s' => set_currentLapStartTime (startTime s') s')
   else skip);;
  (if (length (laps s) =? 0)%nat
   then modify (fun s' =>
                  set_laps (laps s' ++
                            [newLap now2 (orDefault (index defaultAlarmDurations 0)
                                                    (5 * 60 * 1000))]) s');;
        renderLaps
   else skip);;
  emit (SetInterval handle);;
  modify (set_intervalId (Some handle)).

(** [pauseStopwatch]. *)
Definition pauseStopwatch : Cmd unit :=
  s ← get;
  if negb (isRunning s) then skip else
  modify (set_isRunning false);;
  emit (ClearInterval (intervalId s)).

(** [resetStopwatch]. *)
Definition resetStopwatch : Cmd unit :=
  modify (set_isRunning false);;
  modify (set_elapsedTime 0);;
  modify (set_pausedTime 0);;
  modify (set_startTime None);;
  modify (set_currentLapStartTime None);;
  modify (set_laps []);;
  s ← get;
  emit (ClearInterval (intervalId s));;
  clearLapsHistory.

(** [updateStopwatchDisplay]. *)
Definition updateStopwatchDisplay (now : Z) : Cmd unit :=
  s ← get;
  if negb (isRunning s) then skip else
  modify (set_pausedTime (now - toNumber (startTime s)));;
  modify (fun s' => set_elapsedTime (pausedTime s') s').

(** ** Lap management *)

(** [createLap]; [now1] is the reading of the [recordedTime] computation,
    [now2] the new lap's [createdAt], [now3] the one stored in
    [currentLapStartTime]. *)
Definition createLap (now1 now2 now3 : Z) : Cmd unit :=
  s ← get;
  if negb (isRunning s) && (length (laps s) =? 0)%nat
  then emit ConsoleWarn else
  let recordedTime0 :=
    match currentLapStartTime s with
    | Some lapStart =>
        if isRunning s then now1 - lapStart
        else pausedTime s - (lapStart - toNumber (startTime s))
    | None => 0
    end in
  stopAlarmSound;;
  (if (0 <? length (laps s))%nat then
     let currentLapIndex := Z.of_nat (length (laps s)) - 1 in
     currentLap ← lapAt currentLapIndex;
     (if negb (isRecorded currentLap) then
        updateLap currentLapIndex (set_recordedTime (Z.max 0 recordedTime0));;
        updateLap currentLapIndex (set_isRecorded true);;
        updateLap currentLapIndex (set_enabled false);;
        updateLap currentLapIndex (set_triggered false)
      else
        updateLap currentLapIndex (set_enabled false);;
        updateLap currentLapIndex (set_triggered false));;
     updateLapUI currentLapIndex
   else skip);;
  let lapIndex := Z.of_nat (length (laps s)) in
  let defaultDuration :=
    orDefault (index defaultAlarmDurations lapIndex) (5 * 60 * 1000) in
  modify (fun s' => set_laps (laps s' ++ [newLap now2 defaultDuration]) s');;
  modify (fun s' =>
            set_currentLapStartTime
              (Some (if isRunning s' then now3
                     else toNumber (startTime s') + pausedTime s')) s');;
  renderLaps;;
  saveLapsToStorage.

(** The main stopwatch's current elapsed time, as computed inside
    [getLapElapsedTime] ([mainElapsedTime]). *)
Definition mainElapsedTime (now : Z) (s : State) : Z :=
  if isRunning s then now - toNumber (startTime s) else pausedTime s.

(** [getLapElapsedTime]. *)
Definition getLapElapsedTime (now : Z) (lapIndex : Z) : Cmd Z :=
  s ← get;
  if Z.of_nat (length (laps s)) <=? lapIndex then mret 0 else
  lap ← lapAt lapIndex;
  mret (Z.max 0 (mainElapsedTime now s - (createdAt lap - toNumber (startTime s)))).

(** [checkLapAlarms]. *)
Definition checkLapAlarms (now : Z) : Cmd unit :=
  s ← get;
  if (length (laps s) =? 0)%nat then skip else
  let currentLapIndex := Z.of_nat (length (laps s)) - 1 in
  currentLap ← lapAt currentLapIndex;
  if negb (enabled currentLap) || triggered currentLap then skip else
  lapElapsedTime ← getLapElapsedTime now currentLapIndex;
  if alarmDuration currentLap <=? lapElapsedTime then
    updateLap currentLapIndex (set_triggered true);;
    playAlarmSound;;
    updateLapUI currentLapIndex
  else skip.

(** ** Lap alarm management *)

(** [updateLapAlarmDuration]. *)
Definition updateLapAlarmDuration (lapIndex : Z) (durationMs : Z) : Cmd unit :=
  s ← get;
  if lapIndex <? Z.of_nat (length (laps s)) then
    updateLap lapIndex (set_alarmDuration durationMs);;
    updateLap lapIndex (set_triggered false);;
    updateLapUI lapIndex
  else skip.

(** [toggleLapAlarm]. *)
Definition toggleLapAlarm (lapIndex : Z) : Cmd unit :=
  s ← get;
  if lapIndex <? Z.of_nat (length (laps s)) then
    lap ← lapAt lapIndex;
    updateLap lapIndex (set_enabled (negb (enabled lap)));;
    updateLap lapIndex (set_triggered false);;
    updateLapUI lapIndex
  else skip.

(** ** The event loop *)

(** The callback given to [setInterval]: [now1] is read by
    [updateStopwatchDisplay], [now2] by [updateCurrentLapDisplay] and
    [now3] by [checkLapAlarms]. *)
Definition tick (now1 now2 now3 : Z) : Cmd unit :=
  updateStopwatchDisplay now1;;
  updateCurrentLapDisplay now2;;
  checkLapAlarms now3.

(** What can happen to the page: the four button actions, one firing of
    the interval callback, and the two lap alarm management calls. *)
Inductive Action : Type :=
| Start (now1 now2 : Z) (handle : nat)
| Pause
| RecordLap (now1 now2 now3 : Z)
| Reset
| Tick (now1 now2 now3 : Z)
| UpdateDuration (lapIndex : Z) (durationMs : Z)
| ToggleAlarm (lapIndex : Z).

Definition perform (a : Action) : Cmd unit :=
  match a with
  | Start now1 now2 handle => startStopwatch now1 now2 handle
  | Pause => pauseStopwatch
  | RecordLap now1 now2 now3 => createLap now1 now2 now3
  | Reset => resetStopwatch
  | Tick now1 now2 now3 => tick now1 now2 now3
  | UpdateDuration lapIndex durationMs => updateLapAlarmDuration lapIndex durationMs
  | ToggleAlarm lapIndex => toggleLapAlarm lapIndex
  end.

(** The state after a sequence of actions.  An error escaping from one
    handler ends that handler only; the page goes on with the state as
    it was left. *)
Fixpoint run (acts : list Action) (s : State) : State :=
  match acts with
  | [] => s
  | a :: rest => run rest (stateOf (perform a s))
  end.

Definition isAudioPlay (e : Event) : bool :=
  match e with AudioPlay => true | _ => false end.

(** The ledger positions for which the alarm sounded during a sequence
    of actions: each evaluation that called [playAlarmSound], tagged
    with the index of the lap it evaluated (the last one). *)
Fixpoint soundedFor (acts : list Action) (s : State) : list nat :=
  match acts with
  | [] => []
  | a :: rest =>
      let o := perform a s in
      (if existsb isAudioPlay (eventsOf o)
       then [(length (laps s) - 1)%nat] else [])
      ++ soundedFor rest (stateOf o)
  end.

(** * Notions used in the statements *)

(** The time [createLap] records for the lap it closes (its local
    [recordedTime], before the clamp). *)
Definition pendingLapTime (now1 : Z) (s : State) : Z :=
  match currentLapStartTime s with
  | Some lapStart =>
      if isRunning s then now1 - lapStart
      else pausedTime s - (lapStart - toNumber (startTime s))
  | None => 0
  end.

(** The lap a [createLap] closes: the pending one gets its time frozen,
    an already recorded one is only disarmed. *)
Definition closeLap (r : Z) (l : Lap) : Lap :=
  if negb (isRecorded l)
  then set_triggered false (set_enabled false
         (set_isRecorded true (set_recordedTime (Z.max 0 r) l)))
  else set_triggered false (set_enabled false l).

(** The lap-elapsed formula as the specification words it: the
    reference is the main clock's elapsed time, [now - startEpoch] when
    running and the frozen accumulated elapsed when paused. *)
Definition referenceElapsed (now : Z) (s : State) : Z :=
  if isRunning s then now - toNumber (startTime s) else pausedTime s.

Definition spec_lapElapsed (now : Z) (s : State) (lap : Lap) : Z :=
  Z.max 0 (referenceElapsed now s - (createdAt lap - toNumber (startTime s))).

(** The index of the active lap, as [checkLapAlarms] computes it. *)
Definition activeIndex (s : State) : Z := Z.of_nat (length (laps s)) - 1.

(** The alarm decision as the specification words it: the active (last)
    lap is armed, has not fired, and its elapsed time has reached its
    threshold. *)
Definition spec_alarmFires (now : Z) (s : State) : bool :=
  match last (laps s) with
  | None => false
  | Some lap =>
      enabled lap && negb (triggered lap) &&
      match valueOf (getLapElapsedTime now (activeIndex s) s) with
      | Some lapElapsed => alarmDuration lap <=? lapElapsed
      | None => false
      end
  end.

(** The ledger with [triggered] set on its last record only. *)
Definition markFired (ls : list Lap) : list Lap :=
  alter (set_triggered true) (length ls - 1)%nat ls.

(** An action other than pressing Start. *)
Definition notStart (a : Action) : bool :=
  match a with Start _ _ _ => false | _ => true end.

(** Start at 0, one tick at 1000, pause, record a lap at 2000 while
    paused. *)
Definition lapWhilePaused : list Action :=
  [Start 0 0 1; Tick 1000 1000 1000; Pause; RecordLap 2000 2000 2000].

(** The state after [updateStopwatchDisplay]. *)
Definition afterDisplay (now : Z) (s : State) : State :=
  if isRunning s
  then set_elapsedTime (now - toNumber (startTime s))
         (set_pausedTime (now - toNumber (startTime s)) s)
  else s.

(** What one action can do to the ledger, and whether the alarm sounds:
    - nothing;
    - Reset empties it;
    - the first lap is created;
    - the last lap is closed and a new one appended;
    - the alarm of the last lap fires;
    - the alarm duration of one lap is edited;
    - the alarm of one lap is toggled. *)
Inductive LedgerChange (a : Action) : list Lap -> list Lap -> bool -> Prop :=
| lc_same ls : LedgerChange a ls ls false
| lc_reset ls : a = Reset -> LedgerChange a ls [] false
| lc_first now d : LedgerChange a [] [newLap now d] false
| lc_record init l r now d :
    (exists n1 n3, a = RecordLap n1 now n3) ->
    LedgerChange a (init ++ [l]) (init ++ [closeLap r l; newLap now d]) false
| lc_fire init l :
    enabled l = true -> triggered l = false ->
    LedgerChange a (init ++ [l]) (init ++ [set_triggered true l]) true
| lc_edit ls j lap d :
    a = UpdateDuration j d -> index ls j = Some lap ->
    LedgerChange a ls
      (<[Z.to_nat j := set_triggered false (set_alarmDuration d lap)]> ls) false
| lc_toggle ls j lap :
    a = ToggleAlarm j -> index ls j = Some lap ->
    LedgerChange a ls
      (<[Z.to_nat j := set_triggered false (set_enabled (negb (enabled lap)) lap)]> ls)
      false.

(** The [isRecorded] flags of a ledger, in order. *)
Definition closedFlags (ls : list Lap) : list bool := isRecorded <$> ls.

(** A ledger is well formed when it is empty, or every lap but the last
    is recorded and the last one is not. *)
Definition wellFormedLedger (ls : list Lap) : Prop :=
  ls = [] \/ exists n, closedFlags ls = replicate n true ++ [false].

(** An action that leaves the alarm cycle of lap [i] alone: neither a
    reset (which deletes the lap), nor a toggle or a duration edit of
    lap [i]. *)
Definition keepsAlarmCycle (i : nat) (a : Action) : bool :=
  match a with
  | Reset => false
  | UpdateDuration j _ => negb (j =? Z.of_nat i)
  | ToggleAlarm j => negb (j =? Z.of_nat i)
  | _ => true
  end.

(** Lap [i] cannot sound: it has fired already, or it is no longer the
    last lap. *)
Definition silenced (i : nat) (ls : list Lap) : Prop :=
  exists lap, ls !! i = Some lap /\ (triggered lap = true \/ (S i < length ls)%nat).

(** An action other than Reset. *)
Definition notReset (a : Action) : bool :=
  match a with Reset => false | _ => true end.

(** Lap [i] is recorded, with recorded time [r] and creation time [c]. *)
Definition frozenAt (i : nat) (r c : Z) (ls : list Lap) : Prop :=
  exists lap, ls !! i = Some lap /\ isRecorded lap = true /\
              recordedTime lap = r /\ createdAt lap = c.

(** * The event loop, action by action *)

(** What each action does, case by case: the state it leaves and the
    calls it makes. *)
Inductive Step : Action -> State -> State -> list Event -> Prop :=
| step_start_running n1 n2 h s :
    isRunning s = true -> Step (Start n1 n2 h) s s []
| step_start_paused n1 n2 h s :
    isRunning s = false ->
    Step (Start n1 n2 h) s
      {| isRunning := true;
         elapsedTime := elapsedTime s;
         startTime := Some (n1 - pausedTime s);
         pausedTime := pausedTime s;
         currentLapStartTime :=
           match currentLapStartTime s with
           | Some c => Some c
           | None => Some (n1 - pausedTime s)
           end;
         laps := match laps s with
                 | [] => [newLap n2 60000]
                 | _ :: _ => laps s
                 end;
         intervalId := Some h |}
      [SetInterval h]
| step_pause_running s :
    isRunning s = true ->
    Step Pause s (set_isRunning false s) [ClearInterval (intervalId s)]
| step_pause_paused s :
    isRunning s = false -> Step Pause s s []
| step_lap_ignored n1 n2 n3 s :
    isRunning s = false -> laps s = [] ->
    Step (RecordLap n1 n2 n3) s s [ConsoleWarn]
| step_lap_first n1 n2 n3 s :
    isRunning s = true -> laps s = [] ->
    Step (RecordLap n1 n2 n3) s
      {| isRunning := true; elapsedTime := elapsedTime s;
         startTime := startTime s; pausedTime := pausedTime s;
         currentLapStartTime := Some n3;
         laps := [newLap n2 60000];
         intervalId := intervalId s |}
      [AudioStop; StorageSave [savedOf (newLap n2 60000)]]
| step_lap_next n1 n2 n3 s init l :
    laps s = init ++ [l] ->
    Step (RecordLap n1 n2 n3) s
      {| isRunning := isRunning s; elapsedTime := elapsedTime s;
         startTime := startTime s; pausedTime := pausedTime s;
         currentLapStartTime :=
           Some (if isRunning s then n3 else toNumber (startTime s) + pausedTime s);
         laps :=
           init ++ [closeLap (pendingLapTime n1 s) l;
                    newLap n2 (orDefault (index defaultAlarmDurations
                                            (Z.of_nat (length init + 1)))
                                         300000)];
         intervalId := intervalId s |}
      [AudioStop;
       StorageSave
         (map savedOf
            (init ++ [closeLap (pendingLapTime n1 s) l;
                      newLap n2 (orDefault (index defaultAlarmDurations
                                              (Z.of_nat (length init + 1)))
                                           300000)]))]
| step_reset s :
    Step Reset s
      {| isRunning := false; elapsedTime := 0; startTime := None; pausedTime := 0;
         currentLapStartTime := None; laps := []; intervalId := intervalId s |}
      [ClearInterval (intervalId s); StorageClear]
| step_tick_quiet n1 n2 n3 s :
    Step (Tick n1 n2 n3) s (afterDisplay n1 s) []
| step_tick_fire n1 n2 n3 s init l :
    laps s = init ++ [l] -> enabled l = true -> triggered l = false ->
    Step (Tick n1 n2 n3) s
      (set_laps (init ++ [set_triggered true l]) (afterDisplay n1 s)) [AudioPlay]
| step_edit_at j d s lap :
    index (laps s) j = Some lap ->
    Step (UpdateDuration j d) s
      (set_laps (<[Z.to_nat j := set_triggered false (set_alarmDuration d lap)]> (laps s)) s)
      []
| step_edit_out j d s :
    Step (UpdateDuration j d) s s []
| step_toggle_at j s lap :
    index (laps s) j = Some lap ->
    Step (ToggleAlarm j) s
      (set_laps
         (<[Z.to_nat j := set_triggered false (set_enabled (negb (enabled lap)) lap)]>
            (laps s)) s)
      []
| step_toggle_out j s :
    Step (ToggleAlarm j) s s [].

(** The calls made during a sequence of actions, in order. *)
Fixpoint runLog (acts : list Action) (s : State) : list Event :=
  match acts with
  | [] => []
  | a :: rest => eventsOf (perform a s) ++ runLog rest (stateOf (perform a s))
  end.

(** The interval timers that are live after a sequence of calls:
    [setInterval] adds the handle it returned, [clearInterval] cancels
    the timer with the given handle, if there is one. *)
Fixpoint liveTimers (evs : list Event) (live : list nat) : list nat :=
  match evs with
  | [] => live
  | SetInterval h :: rest => liveTimers rest (h :: live)
  | ClearInterval (Some h) :: rest =>
      liveTimers rest (List.filter (fun k => negb (Nat.eqb k h)) live)
  | _ :: rest => liveTimers rest live
  end.

(** While the stopwatch runs exactly the timer in [state.intervalId] is
    live; while it is stopped none is. *)
Definition timerInv (s : State) (live : list nat) : Prop :=
  if isRunning s then exists h, intervalId s = Some h /\ live = [h]
  else live = [].

(** The arrays written to local storage, in order. *)
Fixpoint savedSnapshots (evs : list Event) : list (list SavedLap) :=
  match evs with
  | [] => []
  | StorageSave lapsData :: rest => lapsData :: savedSnapshots rest
  | _ :: rest => savedSnapshots rest
  end.

(** Every lap but the last has its [triggered] flag down. *)
Definition earlierUntriggered (ls : list Lap) : Prop :=
  forall i lap, ls !! i = Some lap -> (S i < length ls)%nat -> triggered lap = false.

(** The stopwatch has not been started since page load or the last
    reset. *)
Definition neverStarted (s : State) : Prop :=
  isRunning s = false /\ elapsedTime s = 0 /\ startTime s = None /\
  pausedTime s = 0 /\ currentLapStartTime s = None /\ laps s = [].

(** The stopwatch has been started: it has a start time, a current lap
    start time and at least one lap. *)
Definition started (s : State) : Prop :=
  (exists st, startTime s = Some st) /\
  (exists c, currentLapStartTime s = Some c) /\
  laps s <> [].

Definition isAudioStop (e : Event) : bool :=
  match e with AudioStop => true | _ => false end.

(** [createLap] goes past its guard. *)
Definition lapAccepted (s : State) : bool :=
  negb (negb (isRunning s) && (length (laps s) =? 0)%nat).

(** An action other than a duration edit. *)
Definition notEdit (a : Action) : bool :=
  match a with UpdateDuration _ _ => false | _ => true end.

(** The default alarm duration of the lap at a ledger position. *)
Definition defaultDurationAt (i : nat) : Z :=
  orDefault (index defaultAlarmDurations (Z.of_nat i)) (5 * 60 * 1000).

(** The clock readings an action takes, in program order. *)
Definition readings (a : Action) : list Z :=
  match a with
  | Start now1 now2 _ => [now1; now2]
  | RecordLap now1 now2 now3 => [now1; now2; now3]
  | Tick now1 now2 now3 => [now1; now2; now3]
  | _ => []
  end.

(** The readings never go back, starting from [t]. *)
Fixpoint ascending (t : Z) (ts : list Z) : bool :=
  match ts with
  | [] => true
  | x :: rest => (t <=? x) && ascending x rest
  end.

(** The latest of the readings [ts] taken after [t]. *)
Fixpoint latest (t : Z) (ts : list Z) : Z :=
  match ts with
  | [] => t
  | x :: rest => latest x rest
  end.

(** With the latest reading at [t]: the frozen elapsed time is not
    negative, a running stopwatch has a start time, and the instant
    [startTime + pausedTime] is not in the future. *)
Definition clockInv (t : Z) (s : State) : Prop :=
  0 <= pausedTime s /\
  (isRunning s = true -> exists st, startTime s = Some st) /\
  (forall st, startTime s = Some st -> st + pausedTime s <= t).

(** * Time formatting and parsing *)

(** Text is a sequence of code units below 256; durations are integers
    below 2^53 in absolute value, so that [Math.floor(x / k)] is the
    exact floor and [String(x)] is plain decimal notation. *)

(** The decimal digits of a natural number, without leading zeros. *)
Definition decimal (n : nat) : String.string :=
  DecimalString.NilZero.string_of_uint (Nat.to_uint n).

(** [String(x)] for an integer [x]. *)
Definition numberToString (x : Z) : String.string :=
  if x <? 0 then String.String "-"%char (decimal (Z.to_nat (- x)))
  else decimal (Z.to_nat x).

Fixpoint repeatChar (n : nat) (c : Ascii.ascii) : String.string :=
  match n with
  | O => String.EmptyString
  | S n' => String.String c (repeatChar n' c)
  end.

(** [s.padStart(targetLength, c)] for a one-character pad string. *)
Definition padStart (targetLength : nat) (c : Ascii.ascii) (s : String.string)
  : String.string :=
  String.append (repeatChar (targetLength - String.length s) c) s.

(** [formatTime]: [%] is the remainder with the sign of the dividend. *)
Definition formatTime (milliseconds : Z) : String.string :=
  let totalSeconds := milliseconds / 1000 in
  let hours := totalSeconds / 3600 in
  let minutes := Z.rem totalSeconds 3600 / 60 in
  let seconds := Z.rem totalSeconds 60 in
  String.concat ":"%string
    (map (fun unit => padStart 2 "0"%char (numberToString unit))
         [hours; minutes; seconds]).

(** [s.split(sep)] for a one-character separator. *)
Fixpoint splitOn (sep : Ascii.ascii) (s : String.string) : list String.string :=
  match s with
  | String.EmptyString => [String.EmptyString]
  | String.String c rest =>
      if Ascii.eqb c sep then String.EmptyString :: splitOn sep rest
      else match splitOn sep rest with
           | [] => [String.String c String.EmptyString]
           | part :: parts => String.String c part :: parts
           end
  end.

(** White space skipped by [parseInt], among the code units below 256:
    tab, line feed, vertical tab, form feed, carriage return, space and
    no-break space. *)
Definition isWhiteSpace (c : Ascii.ascii) : bool :=
  match Ascii.nat_of_ascii c with
  | 9%nat | 10%nat | 11%nat | 12%nat | 13%nat | 32%nat | 160%nat => true
  | _ => false
  end.

(** The value of a decimal digit, by its code unit (48 to 57). *)
Definition digitValue (c : Ascii.ascii) : option Z :=
  let code := Z.of_nat (Ascii.nat_of_ascii c) in
  if (48 <=? code) && (code <=? 57) then Some (code - 48) else None.

Fixpoint trimStart (s : String.string) : String.string :=
  match s with
  | String.EmptyString => s
  | String.String c rest => if isWhiteSpace c then trimStart rest else s
  end.

(** The value of the longest prefix of decimal digits; [None] (NaN)
    when there is no digit. *)
Fixpoint readDigits (s : String.string) (acc : Z) (seen : bool) : option Z :=
  match s with
  | String.EmptyString => if seen then Some acc else None
  | String.String c rest =>
      match digitValue c with
      | Some d => readDigits rest (acc * 10 + d) true
      | None => if seen then Some acc else None
      end
  end.

(** [parseInt(s, 10)]; [None] is NaN. *)
Definition parseInt (s : String.string) : option Z :=
  match trimStart s with
  | String.String "-"%char rest => option_map Z.opp (readDigits rest 0 false)
  | String.String "+"%char rest => readDigits rest 0 false
  | trimmed => readDigits trimmed 0 false
  end.

(** [parseTimeString]; [None] is [null]. *)
Definition parseTimeString (timeString : String.string) : option Z :=
  let parts := map parseInt (splitOn ":"%char timeString) in
  match parts with
  | [minutes; seconds] =>
      match minutes, seconds with
      | Some m, Some sec => if sec <? 60 then Some ((m * 60 + sec) * 1000) else None
      | _, _ => None
      end
  | [seconds] =>
      match seconds with
      | Some sec => Some (sec * 1000)
      | None => None
      end
  | _ => None
  end.

(** The elapsed time [updateCurrentLapDisplay] computes for the current
    lap (its local [currentLapElapsedTime]); [None] when no lap has
    started. *)
Definition currentLapElapsedTime (now : Z) (s : State) : option Z :=
  match currentLapStartTime s with
  | None => None
  | Some lapStart =>
      Some (if isRunning s then now - lapStart
            else pausedTime s - (lapStart - toNumber (startTime s)))
  end.

(** The text [updateCurrentLapDisplay] writes to the current lap
    display. *)
Definition currentLapTimeText (now : Z) (s : State) : String.string :=
  match currentLapElapsedTime now s with
  | None => "00:00:00"%string
  | Some elapsed => formatTime (Z.max 0 elapsed)
  end.


(** No code unit of the text is a colon. *)
Fixpoint noColon (s : String.string) : bool :=
  match s with
  | String.EmptyString => true
  | String.String c rest => negb (Ascii.eqb c ":"%char) && noColon rest
  end.

(** Every code unit of the text is a decimal digit. *)
Fixpoint allDigits (s : String.string) : bool :=
  match s with
  | String.EmptyString => true
  | String.String c rest =>
      match digitValue c with Some _ => allDigits rest | None => false end
  end.

(** The sum of the recorded lap times of a ledger. *)
Definition sumRecorded (ls : list Lap) : Z :=
  foldr Z.add 0 (recordedTime <$> ls).

(** An action that neither stops the clock nor splits a lap recording
    over two clock readings: not a pause, not a reset, and a lap whose
    first and last readings coincide. *)
Definition steady (a : Action) : bool :=
  match a with
  | Pause | Reset => false
  | RecordLap now1 _ now3 => now1 =? now3
  | _ => true
  end.

(** A lap that is not recorded yet has recorded time 0. *)
Definition openLapsAtZero (ls : list Lap) : Prop :=
  Forall (fun lap => isRecorded lap = false -> recordedTime lap = 0) ls.

(** The bookkeeping of a stopwatch started at [t0] and never paused,
    with the latest clock reading at [t]. *)
Definition lapsAddUp (t0 t : Z) (s : State) : Prop :=
  isRunning s = true /\ startTime s = Some t0 /\
  (exists c, currentLapStartTime s = Some c /\ c <= t /\
             sumRecorded (laps s) = c - t0) /\
  wellFormedLedger (laps s) /\ laps s <> [] /\ openLapsAtZero (laps s).

(** Every action of the sequence takes one clock reading for the values
    it stores, and laps are recorded while the stopwatch runs only. *)
Fixpoint lapsWhileRunning (acts : list Action) (s : State) : bool :=
  match acts with
  | [] => true
  | a :: rest =>
      match a with
      | Start now1 now2 _ => now1 =? now2
      | RecordLap _ now2 now3 => isRunning s && (now2 =? now3)
      | _ => true
      end && lapsWhileRunning rest (stateOf (perform a s))
  end.

(** The current lap timer was started when the last lap was created. *)
Definition lapTimerAtLastLap (s : State) : Prop :=
  currentLapStartTime s = createdAt <$> last (laps s).

(** The list is in ascending order. *)
Definition chronological (ts : list Z) : bool :=
  match ts with
  | [] => true
  | t :: rest => ascending t rest
  end.

(** The creation times of the ledger are in ascending order and none is
    later than [t]. *)
Definition ledgerInOrder (t : Z) (ls : list Lap) : Prop :=
  chronological ((createdAt <$> ls) ++ [t]) = true.

(** * Closed forms of the commands *)

Ltac unfold_cmd :=
  unfold skip, mbind, mret, cmd_bind, cmd_ret, bind, ret, get, modify, emit in *.

Section IndexFacts.
Context {A : Type}.
Implicit Types (arr init : list A) (i : Z) (x y : A).

Lemma index_Some arr i x :
  index arr i = Some x <-> 0 <= i /\ arr !! Z.to_nat i = Some x.
Proof.
  unfold index. destruct (Z.ltb_spec i 0); split.
  - discriminate.
  - intros [? _]. lia.
  - auto.
  - intros [_ ?]. assumption.
Qed.

Lemma index_in_range arr i :
  0 <= i < Z.of_nat (length arr) -> exists x, index arr i = Some x.
Proof.
  intros Hi. destruct (lookup_lt_is_Some_2 arr (Z.to_nat i)) as [x Hx]; [lia|].
  exists x. apply index_Some. split; [lia|exact Hx].
Qed.

Lemma index_negative arr i : i < 0 -> index arr i = None.
Proof. intros Hi. unfold index. destruct (Z.ltb_spec i 0); [reflexivity|lia]. Qed.

Lemma index_lt arr i x : index arr i = Some x -> 0 <= i < Z.of_nat (length arr).
Proof.
  intros [Hi Hx]%index_Some. apply lookup_lt_Some in Hx. lia.
Qed.

Lemma index_of_nat arr (n : nat) : index arr (Z.of_nat n) = arr !! n.
Proof.
  unfold index. destruct (Z.ltb_spec (Z.of_nat n) 0); [lia|].
  now rewrite Nat2Z.id.
Qed.

Lemma index_last init x :
  index (init ++ [x]) (Z.of_nat (length (init ++ [x])) - 1) = Some x.
Proof.
  rewrite length_app. simpl.
  replace (Z.of_nat (length init + 1) - 1) with (Z.of_nat (length init)) by lia.
  rewrite index_of_nat. apply list_lookup_middle. reflexivity.
Qed.

Lemma insert_last init x y :
  <[Z.to_nat (Z.of_nat (length (init ++ [x])) - 1) := y]> (init ++ [x]) = init ++ [y].
Proof.
  rewrite length_app. simpl.
  replace (Z.to_nat (Z.of_nat (length init + 1) - 1)) with (length init + 0)%nat by lia.
  now rewrite insert_app_r.
Qed.

Lemma snoc_cases arr : arr = [] \/ exists init x, arr = init ++ [x].
Proof.
  destruct arr as [|a arr] using rev_ind; [now left|right; eauto].
Qed.
End IndexFacts.

Lemma lapAt_Some i s lap :
  index (laps s) i = Some lap -> lapAt i s = Returned lap s [].
Proof. intros H. unfold lapAt. now rewrite H. Qed.

Lemma lapAt_None i s : index (laps s) i = None -> lapAt i s = Threw s [].
Proof. intros H. unfold lapAt. now rewrite H. Qed.

Lemma updateLap_Some i f s lap :
  index (laps s) i = Some lap ->
  updateLap i f s = Returned tt (set_laps (<[Z.to_nat i := f lap]> (laps s)) s) [].
Proof. intros H. unfold updateLap. unfold_cmd. now rewrite (lapAt_Some _ _ _ H). Qed.

Lemma updateLap_None i f s : index (laps s) i = None -> updateLap i f s = Threw s [].
Proof. intros H. unfold updateLap. unfold_cmd. now rewrite (lapAt_None _ _ H). Qed.

Lemma startStopwatch_running now1 now2 handle s :
  isRunning s = true -> startStopwatch now1 now2 handle s = Returned tt s [].
Proof. intros H. unfold startStopwatch. unfold_cmd. now rewrite H. Qed.

Lemma startStopwatch_paused now1 now2 handle s :
  isRunning s = false ->
  startStopwatch now1 now2 handle s =
  Returned tt
    {| isRunning := true;
       elapsedTime := elapsedTime s;
       startTime := Some (now1 - pausedTime s);
       pausedTime := pausedTime s;
       currentLapStartTime :=
         match currentLapStartTime s with
         | Some c => Some c
         | None => Some (now1 - pausedTime s)
         end;
       laps := match laps s with
               | [] => [newLap now2 60000]
               | _ :: _ => laps s
               end;
       intervalId := Some handle |}
    [SetInterval handle].
Proof.
  intros H. unfold startStopwatch. unfold_cmd. rewrite H.
  destruct s as [r e st p c ls iid]. simpl in *.
  destruct c, ls; reflexivity.
Qed.

Lemma pauseStopwatch_paused s :
  isRunning s = false -> pauseStopwatch s = Returned tt s [].
Proof. intros H. unfold pauseStopwatch. unfold_cmd. now rewrite H. Qed.

Lemma pauseStopwatch_running s :
  isRunning s = true ->
  pauseStopwatch s = Returned tt (set_isRunning false s) [ClearInterval (intervalId s)].
Proof. intros H. unfold pauseStopwatch. unfold_cmd. now rewrite H. Qed.

Lemma resetStopwatch_closed s :
  resetStopwatch s =
  Returned tt
    {| isRunning := false; elapsedTime := 0; startTime := None; pausedTime := 0;
       currentLapStartTime := None; laps := []; intervalId := intervalId s |}
    [ClearInterval (intervalId s); StorageClear].
Proof. reflexivity. Qed.

Lemma updateStopwatchDisplay_paused now s :
  isRunning s = false -> updateStopwatchDisplay now s = Returned tt s [].
Proof. intros H. unfold updateStopwatchDisplay. unfold_cmd. now rewrite H. Qed.

Lemma updateStopwatchDisplay_running now s :
  isRunning s = true ->
  updateStopwatchDisplay now s =
  Returned tt
    (set_elapsedTime (now - toNumber (startTime s))
       (set_pausedTime (now - toNumber (startTime s)) s)) [].
Proof. intros H. unfold updateStopwatchDisplay. unfold_cmd. now rewrite H. Qed.

Lemma updateLap_last i f s init l :
  laps s = init ++ [l] -> i = Z.of_nat (length init) ->
  updateLap i f s = Returned tt (set_laps (init ++ [f l]) s) [].
Proof.
  intros Hl ->. rewrite (updateLap_Some _ _ _ l).
  - rewrite Hl, Nat2Z.id. replace (length init) with (length init + 0)%nat at 1 by lia.
    now rewrite insert_app_r.
  - rewrite Hl, index_of_nat. now apply list_lookup_middle.
Qed.

Lemma createLap_ignored now1 now2 now3 s :
  isRunning s = false -> laps s = [] ->
  createLap now1 now2 now3 s = Returned tt s [ConsoleWarn].
Proof. intros Hr Hl. unfold createLap. unfold_cmd. now rewrite Hr, Hl. Qed.

Lemma createLap_next now1 now2 now3 s init l :
  laps s = init ++ [l] ->
  createLap now1 now2 now3 s =
  let laps' :=
    init ++ [closeLap (pendingLapTime now1 s) l;
             newLap now2 (orDefault (index defaultAlarmDurations
                                       (Z.of_nat (length init + 1)))
                                    300000)] in
  Returned tt
    {| isRunning := isRunning s; elapsedTime := elapsedTime s;
       startTime := startTime s; pausedTime := pausedTime s;
       currentLapStartTime :=
         Some (if isRunning s then now3 else toNumber (startTime s) + pausedTime s);
       laps := laps';
       intervalId := intervalId s |}
    [AudioStop; StorageSave (map savedOf laps')].
Proof.
  intros Hl.
  assert (Hlen : length (init ++ [l]) = S (length init))
    by (rewrite length_app; simpl; lia).
  unfold createLap, stopAlarmSound, updateLapUI, renderLaps, saveLapsToStorage.
  unfold_cmd. fold (pendingLapTime now1 s).
  rewrite Hl, Hlen.
  replace (Z.of_nat (S (length init)) - 1) with (Z.of_nat (length init)) by lia.
  replace (length init + 1)%nat with (S (length init)) by lia.
  change (S (length init) =? 0)%nat with false.
  change (0 <? S (length init))%nat with true.
  rewrite andb_false_r. cbv beta iota.
  rewrite (lapAt_Some _ _ l) by (rewrite Hl, index_of_nat; now apply list_lookup_middle).
  unfold closeLap.
  destruct (isRecorded l) eqn:Hrec; cbn [negb]; cbv beta iota.
  - rewrite (updateLap_last _ _ _ init l Hl eq_refl); cbv beta iota.
    erewrite updateLap_last by reflexivity; cbv beta iota.
    destruct s; simpl in *. rewrite <- app_assoc. reflexivity.
  - rewrite (updateLap_last _ _ _ init l Hl eq_refl); cbv beta iota.
    do 3 (erewrite updateLap_last by reflexivity; cbv beta iota).
    destruct s; simpl in *. rewrite <- app_assoc. reflexivity.
Qed.

Lemma createLap_first now1 now2 now3 s :
  isRunning s = true -> laps s = [] ->
  createLap now1 now2 now3 s =
  Returned tt
    {| isRunning := true; elapsedTime := elapsedTime s;
       startTime := startTime s; pausedTime := pausedTime s;
       currentLapStartTime := Some now3;
       laps := [newLap now2 60000];
       intervalId := intervalId s |}
    [AudioStop; StorageSave [savedOf (newLap now2 60000)]].
Proof.
  intros Hr Hl.
  unfold createLap, stopAlarmSound, updateLapUI, renderLaps, saveLapsToStorage.
  unfold_cmd. rewrite Hr, Hl. destruct s; simpl in *. subst. reflexivity.
Qed.

(** Two assignments to properties of the same element, one after the
    other. *)
Lemma updateLap_twice i f g s lap :
  index (laps s) i = Some lap ->
  (updateLap i f;; updateLap i g) s =
  Returned tt (set_laps (<[Z.to_nat i := g (f lap)]> (laps s)) s) [].
Proof.
  intros H. unfold_cmd. rewrite (updateLap_Some _ _ _ lap H).
  pose proof (index_lt _ _ _ H) as Hi.
  rewrite (updateLap_Some _ _ _ (f lap)).
  - simpl. rewrite list_insert_insert_eq. now destruct s.
  - simpl. apply index_Some. split; [lia|].
    apply list_lookup_insert_eq. lia.
Qed.

Lemma getLapElapsedTime_beyond now i s :
  Z.of_nat (length (laps s)) <= i -> getLapElapsedTime now i s = Returned 0 s [].
Proof.
  intros H. unfold getLapElapsedTime. unfold_cmd.
  destruct (Z.leb_spec (Z.of_nat (length (laps s))) i); [reflexivity|lia].
Qed.

Lemma getLapElapsedTime_at now i s lap :
  index (laps s) i = Some lap ->
  getLapElapsedTime now i s =
  Returned (Z.max 0 (mainElapsedTime now s - (createdAt lap - toNumber (startTime s))))
           s [].
Proof.
  intros H. pose proof (index_lt _ _ _ H) as Hi.
  unfold getLapElapsedTime. unfold_cmd.
  destruct (Z.leb_spec (Z.of_nat (length (laps s))) i); [lia|].
  now rewrite (lapAt_Some _ _ _ H).
Qed.

Lemma getLapElapsedTime_negative now i s :
  i < 0 -> getLapElapsedTime now i s = Threw s [].
Proof.
  intros H. unfold getLapElapsedTime. unfold_cmd.
  destruct (Z.leb_spec (Z.of_nat (length (laps s))) i); [lia|].
  now rewrite lapAt_None by now apply index_negative.
Qed.

Lemma checkLapAlarms_empty now s :
  laps s = [] -> checkLapAlarms now s = Returned tt s [].
Proof. intros H. unfold checkLapAlarms. unfold_cmd. now rewrite H. Qed.

Lemma checkLapAlarms_last now s init l :
  laps s = init ++ [l] ->
  checkLapAlarms now s =
  if negb (enabled l) || triggered l then Returned tt s []
  else if alarmDuration l <=?
            Z.max 0 (mainElapsedTime now s - (createdAt l - toNumber (startTime s)))
       then Returned tt (set_laps (init ++ [set_triggered true l]) s) [AudioPlay]
       else Returned tt s [].
Proof.
  intros Hl.
  assert (Hlen : length (laps s) = S (length init))
    by (rewrite Hl, length_app; simpl; lia).
  assert (Hidx : index (laps s) (Z.of_nat (length init)) = Some l)
    by (rewrite Hl, index_of_nat; now apply list_lookup_middle).
  unfold checkLapAlarms. unfold_cmd. rewrite Hlen.
  change (S (length init) =? 0)%nat with false. cbv beta iota.
  replace (Z.of_nat (S (length init)) - 1) with (Z.of_nat (length init)) by lia.
  rewrite (lapAt_Some _ _ _ Hidx).
  destruct (negb (enabled l) || triggered l); [reflexivity|].
  rewrite (getLapElapsedTime_at _ _ _ _ Hidx).
  destruct (alarmDuration l <=? _); [|reflexivity].
  rewrite (updateLap_last _ _ _ _ _ Hl eq_refl). reflexivity.
Qed.

Lemma updateLapAlarmDuration_beyond i d s :
  Z.of_nat (length (laps s)) <= i -> updateLapAlarmDuration i d s = Returned tt s [].
Proof.
  intros H. unfold updateLapAlarmDuration. unfold_cmd.
  destruct (Z.ltb_spec i (Z.of_nat (length (laps s)))); [lia|reflexivity].
Qed.

Lemma updateLapAlarmDuration_at i d s lap :
  index (laps s) i = Some lap ->
  updateLapAlarmDuration i d s =
  Returned tt
    (set_laps (<[Z.to_nat i := set_triggered false (set_alarmDuration d lap)]> (laps s)) s)
    [].
Proof.
  intros H. pose proof (index_lt _ _ _ H) as Hi.
  pose proof (updateLap_twice i (set_alarmDuration d) (set_triggered false) s lap H) as E.
  unfold updateLapAlarmDuration, updateLapUI. unfold_cmd.
  destruct (Z.ltb_spec i (Z.of_nat (length (laps s)))); [|lia].
  destruct (updateLap i (set_alarmDuration d) s) as [[] s1 e1|s1 e1]; [|discriminate].
  destruct (updateLap i (set_triggered false) s1) as [[] s2 e2|s2 e2]; [|discriminate].
  injection E as -> [-> ->]%app_eq_nil. reflexivity.
Qed.

Lemma updateLapAlarmDuration_negative i d s :
  i < 0 -> updateLapAlarmDuration i d s = Threw s [].
Proof.
  intros H. unfold updateLapAlarmDuration. unfold_cmd.
  destruct (Z.ltb_spec i (Z.of_nat (length (laps s)))); [|lia].
  now rewrite updateLap_None by now apply index_negative.
Qed.

Lemma toggleLapAlarm_beyond i s :
  Z.of_nat (length (laps s)) <= i -> toggleLapAlarm i s = Returned tt s [].
Proof.
  intros H. unfold toggleLapAlarm. unfold_cmd.
  destruct (Z.ltb_spec i (Z.of_nat (length (laps s)))); [lia|reflexivity].
Qed.

Lemma toggleLapAlarm_at i s lap :
  index (laps s) i = Some lap ->
  toggleLapAlarm i s =
  Returned tt
    (set_laps (<[Z.to_nat i := set_triggered false (set_enabled (negb (enabled lap)) lap)]>
                 (laps s)) s)
    [].
Proof.
  intros H. pose proof (index_lt _ _ _ H) as Hi.
  pose proof (updateLap_twice i (set_enabled (negb (enabled lap)))
                (set_triggered false) s lap H) as E.
  unfold toggleLapAlarm, updateLapUI. unfold_cmd.
  destruct (Z.ltb_spec i (Z.of_nat (length (laps s)))); [|lia].
  rewrite (lapAt_Some _ _ _ H).
  destruct (updateLap i (set_enabled _) s) as [[] s1 e1|s1 e1]; [|discriminate].
  destruct (updateLap i (set_triggered false) s1) as [[] s2 e2|s2 e2]; [|discriminate].
  injection E as -> [-> ->]%app_eq_nil. reflexivity.
Qed.

Lemma toggleLapAlarm_negative i s : i < 0 -> toggleLapAlarm i s = Threw s [].
Proof.
  intros H. unfold toggleLapAlarm. unfold_cmd.
  destruct (Z.ltb_spec i (Z.of_nat (length (laps s)))); [|lia].
  now rewrite lapAt_None by now apply index_negative.
Qed.

(** * The lap-elapsed formula *)

(** C1. For every lap index in range and every clock state,
    [getLapElapsedTime] returns
    [max 0 (referenceElapsed - (createdAt - startEpoch))], where
    [referenceElapsed] is [now - startEpoch] when the clock runs and the
    frozen accumulated elapsed ([pausedTime]) when it is paused; the call
    changes nothing and calls nothing. *)
Theorem getLapElapsedTime_formula now i s lap :
  index (laps s) i = Some lap ->
  getLapElapsedTime now i s = Returned (spec_lapElapsed now s lap) s [].
Proof.
  intros H. rewrite (getLapElapsedTime_at _ _ _ _ H).
  reflexivity.
Qed.

Lemma getLapElapsedTime_formula_witness :
  let s := run [Start 0 0 1; Tick 100 100 100] initialState in
  index (laps s) 0 = Some (newLap 0 60000) /\
  getLapElapsedTime 250 0 s = Returned (spec_lapElapsed 250 s (newLap 0 60000)) s [].
Proof.
  split; [reflexivity|].
  apply (getLapElapsedTime_formula 250 0 _ (newLap 0 60000)). reflexivity.
Defined.

(** In both clock states the formula unfolds to the two cases of the
    specification. *)
Lemma spec_lapElapsed_running now s lap :
  isRunning s = true ->
  spec_lapElapsed now s lap =
  Z.max 0 ((now - toNumber (startTime s)) - (createdAt lap - toNumber (startTime s))).
Proof. intros H. unfold spec_lapElapsed, referenceElapsed. now rewrite H. Qed.

Lemma spec_lapElapsed_paused now s lap :
  isRunning s = false ->
  spec_lapElapsed now s lap =
  Z.max 0 (pausedTime s - (createdAt lap - toNumber (startTime s))).
Proof. intros H. unfold spec_lapElapsed, referenceElapsed. now rewrite H. Qed.

(** * The alarm evaluator *)

Lemma markFired_snoc init l : markFired (init ++ [l]) = init ++ [set_triggered true l].
Proof.
  unfold markFired. rewrite length_app. simpl.
  replace (length init + 1 - 1)%nat with (length init + 0)%nat by lia.
  now rewrite alter_app_r.
Qed.

(** C2. One evaluation looks at the last lap only.  The alarm fires
    exactly when that lap is enabled, not yet triggered, and its elapsed
    time is at least its alarm duration (a tie fires); firing sets
    [triggered] on that record, leaves every other record and field as
    it was, and calls [playAlarmSound] once.  Otherwise nothing changes
    and nothing is called. *)
Theorem checkLapAlarms_decision now s :
  checkLapAlarms now s =
  if spec_alarmFires now s
  then Returned tt (set_laps (markFired (laps s)) s) [AudioPlay]
  else Returned tt s [].
Proof.
  unfold spec_alarmFires, activeIndex.
  destruct (snoc_cases (laps s)) as [Hl|(init & l & Hl)].
  - rewrite (checkLapAlarms_empty _ _ Hl), Hl. reflexivity.
  - rewrite (checkLapAlarms_last _ _ _ _ Hl).
    assert (Hidx : index (laps s) (Z.of_nat (length (laps s)) - 1) = Some l)
      by (rewrite Hl; apply index_last).
    rewrite (getLapElapsedTime_at _ _ _ _ Hidx). simpl valueOf.
    replace (last (laps s)) with (Some l)
      by (rewrite Hl; symmetry; apply last_snoc).
    replace (markFired (laps s)) with (init ++ [set_triggered true l])
      by (rewrite Hl; symmetry; apply markFired_snoc).
    destruct (enabled l), (triggered l); simpl; try reflexivity.
Qed.

(** A tie at exactly the threshold fires. *)
Example checkLapAlarms_tie :
  let s := run [Start 0 0 1] initialState in
  eventsOf (checkLapAlarms 59999 s) = [] /\
  eventsOf (checkLapAlarms 60000 s) = [AudioPlay].
Proof. split; reflexivity. Qed.

(** * The main clock across pause and resume *)

(** C4. Starting a stopped clock sets [startTime] to
    [now - pausedTime].  So for a clock paused at elapsed [e], the
    elapsed time read at the resuming instant is [e] again, and later
    readings add only the time since the resume: the length of the pause
    does not enter. *)
Theorem startStopwatch_continuous now1 now2 handle s e :
  isRunning s = false ->
  (forall t, mainElapsedTime t s = e) ->
  let s' := stateOf (startStopwatch now1 now2 handle s) in
  isRunning s' = true /\
  startTime s' = Some (now1 - pausedTime s) /\
  mainElapsedTime now1 s' = e /\
  forall now, mainElapsedTime now s' = e + (now - now1).
Proof.
  intros Hr He. rewrite (startStopwatch_paused _ _ _ _ Hr). simpl.
  specialize (He 0). unfold mainElapsedTime in *. rewrite Hr in He. simpl.
  repeat split; try lia.
Qed.

Lemma startStopwatch_continuous_witness :
  let s := run [Start 0 0 1; Tick 1000 1000 1000; Pause] initialState in
  let s' := stateOf (startStopwatch 11000 11000 2 s) in
  isRunning s = false /\
  (forall t, mainElapsedTime t s = 1000) /\
  isRunning s' = true /\
  startTime s' = Some (11000 - pausedTime s) /\
  mainElapsedTime 11000 s' = 1000 /\
  forall now, mainElapsedTime now s' = 1000 + (now - 11000).
Proof.
  split; [reflexivity|]. split; [intros t; reflexivity|].
  apply (startStopwatch_continuous 11000 11000 2
           (run [Start 0 0 1; Tick 1000 1000 1000; Pause] initialState) 1000).
  - reflexivity.
  - intros t. reflexivity.
Defined.

(** * Pausing *)

(** C5, as stated, fails: the stopwatch is started at 1000, the interval
    fires once at 1100, and the user pauses at 1150.  [pauseStopwatch]
    does not read the clock; [pausedTime] stays at the 100 the tick
    wrote, not the 150 elapsed at the pause call. *)
Lemma pauseStopwatch_not_at_call_instant :
  let s := run [Start 1000 1000 1; Tick 1100 1100 1100] initialState in
  let now := 1150 in
  isRunning s = true /\
  pausedTime (stateOf (pauseStopwatch s)) = 100 /\
  now - toNumber (startTime s) = 150 /\
  pausedTime (stateOf (pauseStopwatch s)) <> now - toNumber (startTime s).
Proof.
  cbv zeta. repeat apply conj; vm_compute; solve [reflexivity | discriminate].
Qed.

(** C5, amended. Pausing a running clock sets [isRunning] to false and
    leaves [pausedTime] as it is; that value is [tickTime - startTime]
    of the latest [updateStopwatchDisplay] of the run. *)
Theorem pauseStopwatch_keeps_tick_value s :
  isRunning s = true ->
  let s' := stateOf (pauseStopwatch s) in
  isRunning s' = false /\
  pausedTime s' = pausedTime s /\
  startTime s' = startTime s /\
  laps s' = laps s /\
  forall tickTime,
    pausedTime (stateOf (pauseStopwatch (stateOf (updateStopwatchDisplay tickTime s))))
    = tickTime - toNumber (startTime s).
Proof.
  intros Hr. rewrite (pauseStopwatch_running _ Hr). simpl.
  repeat split. intros tickTime.
  rewrite (updateStopwatchDisplay_running _ _ Hr). simpl.
  rewrite pauseStopwatch_running by (simpl; exact Hr). reflexivity.
Qed.

Lemma pauseStopwatch_keeps_tick_value_witness :
  let s := run [Start 1000 1000 1; Tick 1100 1100 1100] initialState in
  let s' := stateOf (pauseStopwatch s) in
  isRunning s = true /\
  isRunning s' = false /\
  pausedTime s' = pausedTime s /\
  startTime s' = startTime s /\
  laps s' = laps s /\
  forall tickTime,
    pausedTime (stateOf (pauseStopwatch (stateOf (updateStopwatchDisplay tickTime s))))
    = tickTime - toNumber (startTime s).
Proof.
  split; [reflexivity|].
  apply (pauseStopwatch_keeps_tick_value
           (run [Start 1000 1000 1; Tick 1100 1100 1100] initialState)).
  reflexivity.
Defined.

(** * Recording a lap before the first start *)

(** As long as Start has not been pressed the clock is stopped and the
    ledger is empty. *)
Lemma never_started acts s :
  isRunning s = false -> laps s = [] ->
  forallb notStart acts = true ->
  isRunning (run acts s) = false /\ laps (run acts s) = [].
Proof.
  revert s. induction acts as [|a acts IH]; intros s Hr Hl Hacts; [now split|].
  simpl in Hacts. apply andb_true_iff in Hacts as [Ha Hacts].
  assert (Hsame : isRunning (stateOf (perform a s)) = false /\
                  laps (stateOf (perform a s)) = []).
  { destruct a; simpl in *; try discriminate.
    - now rewrite (pauseStopwatch_paused _ Hr).
    - now rewrite (createLap_ignored _ _ _ _ Hr Hl).
    - now split.
    - unfold tick. unfold_cmd. rewrite (updateStopwatchDisplay_paused _ _ Hr).
      unfold updateCurrentLapDisplay. unfold_cmd.
      now rewrite (checkLapAlarms_empty _ _ Hl).
    - destruct (Z.lt_ge_cases lapIndex 0).
      + now rewrite updateLapAlarmDuration_negative.
      + now rewrite updateLapAlarmDuration_beyond by (rewrite Hl; simpl; lia).
    - destruct (Z.lt_ge_cases lapIndex 0).
      + now rewrite toggleLapAlarm_negative.
      + now rewrite toggleLapAlarm_beyond by (rewrite Hl; simpl; lia). }
  simpl. now apply IH.
Qed.

(** C9. [createLap] on a stopwatch that has never been started (so it is
    not running) and whose ledger is empty returns at once: the state is
    unchanged, no lap is created, and the only call made is the console
    warning. *)
Theorem createLap_before_start now1 now2 now3 s :
  isRunning s = false -> laps s = [] ->
  createLap now1 now2 now3 s = Returned tt s [ConsoleWarn].
Proof.
  intros Hr Hl. unfold createLap. unfold_cmd.
  rewrite Hr, Hl. reflexivity.
Qed.

Lemma createLap_before_start_witness :
  isRunning initialState = false /\ laps initialState = [] /\
  createLap 5 5 5 initialState = Returned tt initialState [ConsoleWarn].
Proof.
  split; [reflexivity|]. split; [reflexivity|].
  apply (createLap_before_start 5 5 5 initialState); reflexivity.
Defined.

(** The same on every state reached without pressing Start. *)
Lemma createLap_never_started acts now1 now2 now3 :
  forallb notStart acts = true ->
  let s := run acts initialState in
  createLap now1 now2 now3 s = Returned tt s [ConsoleWarn].
Proof.
  intros Hacts s.
  destruct (never_started acts initialState eq_refl eq_refl Hacts) as [Hr Hl].
  now apply createLap_ignored.
Qed.

(** * Indices beyond the ledger *)

(** C10. For an index at or beyond the ledger length, [getLapElapsedTime]
    returns 0, and [updateLapAlarmDuration] and [toggleLapAlarm] return
    without touching the state; none of them raises an error or calls
    anything. *)
Theorem lap_operations_beyond_ledger i s :
  Z.of_nat (length (laps s)) <= i ->
  (forall now, getLapElapsedTime now i s = Returned 0 s []) /\
  (forall durationMs, updateLapAlarmDuration i durationMs s = Returned tt s []) /\
  toggleLapAlarm i s = Returned tt s [].
Proof.
  intros Hi. split; [|split].
  - intros now. now apply getLapElapsedTime_beyond.
  - intros d. now apply updateLapAlarmDuration_beyond.
  - now apply toggleLapAlarm_beyond.
Qed.

Lemma lap_operations_beyond_ledger_witness :
  let s := run [Start 0 0 1; RecordLap 500 500 500] initialState in
  Z.of_nat (length (laps s)) <= 2 /\
  (forall now, getLapElapsedTime now 2 s = Returned 0 s []) /\
  (forall durationMs, updateLapAlarmDuration 2 durationMs s = Returned tt s []) /\
  toggleLapAlarm 2 s = Returned tt s [].
Proof.
  split; [vm_compute; discriminate|].
  apply (lap_operations_beyond_ledger 2
           (run [Start 0 0 1; RecordLap 500 500 500] initialState)).
  vm_compute. discriminate.
Defined.

(** Below zero the element is [undefined] and the property access
    raises; the state is as before. *)
Lemma lap_operations_negative i s :
  i < 0 ->
  (forall now, getLapElapsedTime now i s = Threw s []) /\
  (forall durationMs, updateLapAlarmDuration i durationMs s = Threw s []) /\
  toggleLapAlarm i s = Threw s [].
Proof.
  intros Hi. split; [|split].
  - intros now. now apply getLapElapsedTime_negative.
  - intros d. now apply updateLapAlarmDuration_negative.
  - now apply toggleLapAlarm_negative.
Qed.

(** * Lap time across a pause *)

(** While the clock runs, the elapsed time of a lap is the wall-clock
    time since its [createdAt]: the shifts of [startTime] made by earlier
    resumes cancel out. *)
Lemma getLapElapsedTime_running now i s lap :
  isRunning s = true -> index (laps s) i = Some lap ->
  getLapElapsedTime now i s = Returned (Z.max 0 (now - createdAt lap)) s [].
Proof.
  intros Hr H. rewrite (getLapElapsedTime_at _ _ _ _ H).
  unfold mainElapsedTime. rewrite Hr. do 2 f_equal. lia.
Qed.

(** C8 on the code. Start at 0, one tick at 1000, pause, record a lap at
    2000 while paused, resume at 12000.  The closing lap's time is
    frozen (1000) and a new open lap is appended; its elapsed time is 0
    for the rest of the pause; but at the resuming instant it reads
    10000, the wall-clock time spent paused since it was recorded,
    instead of 0. *)
Theorem lap_recorded_while_paused_jumps :
  let paused := run lapWhilePaused initialState in
  let resumed := run [Start 12000 12000 2] paused in
  isRunning paused = false /\
  laps paused =
    [ {| createdAt := 0; recordedTime := 1000; alarmDuration := 60000;
         triggered := false; enabled := false; isRecorded := true |};
      newLap 2000 60000 ] /\
  getLapElapsedTime 2000 1 paused = Returned 0 paused [] /\
  getLapElapsedTime 12000 1 paused = Returned 0 paused [] /\
  isRunning resumed = true /\
  getLapElapsedTime 12000 1 resumed = Returned 10000 resumed [] /\
  getLapElapsedTime 12100 1 resumed = Returned 10100 resumed [].
Proof.
  cbv zeta. repeat apply conj; vm_compute; reflexivity.
Qed.

(** * Closed laps *)

(** C7, as stated, fails: start at 0 and record a lap at 1000, which
    closes lap 0 with [recordedTime] 1000.  [getLapElapsedTime 0] then
    returns 2000 at 2000 and 3000 at 3000: it follows the clock. *)
Lemma closed_lap_elapsed_follows_clock :
  let s := run [Start 0 0 1; RecordLap 1000 1000 1000] initialState in
  (isRecorded <$> laps s !! 0%nat) = Some true /\
  (recordedTime <$> laps s !! 0%nat) = Some 1000 /\
  getLapElapsedTime 2000 0 s = Returned 2000 s [] /\
  getLapElapsedTime 3000 0 s = Returned 3000 s [] /\
  valueOf (getLapElapsedTime 2000 0 s) <> valueOf (getLapElapsedTime 3000 0 s).
Proof.
  cbv zeta. repeat apply conj; vm_compute; solve [reflexivity | discriminate].
Qed.

(** * What one action does to the ledger *)

Lemma updateStopwatchDisplay_closed now s :
  updateStopwatchDisplay now s = Returned tt (afterDisplay now s) [].
Proof.
  unfold afterDisplay. destruct (isRunning s) eqn:Hr.
  - now apply updateStopwatchDisplay_running.
  - now apply updateStopwatchDisplay_paused.
Qed.

Lemma laps_afterDisplay now s : laps (afterDisplay now s) = laps s.
Proof. unfold afterDisplay. now destruct (isRunning s). Qed.

Lemma tick_closed now1 now2 now3 s :
  tick now1 now2 now3 s = checkLapAlarms now3 (afterDisplay now1 s).
Proof.
  unfold tick, updateCurrentLapDisplay. unfold_cmd.
  rewrite updateStopwatchDisplay_closed.
  now destruct (checkLapAlarms now3 (afterDisplay now1 s)).
Qed.

Lemma perform_ledger a s :
  LedgerChange a (laps s) (laps (stateOf (perform a s)))
    (existsb isAudioPlay (eventsOf (perform a s))).
Proof.
  destruct a as [n1 n2 h| |n1 n2 n3| |n1 n2 n3|j d|j]; simpl perform.
  - destruct (isRunning s) eqn:Hr.
    + rewrite (startStopwatch_running _ _ _ _ Hr). apply lc_same.
    + rewrite (startStopwatch_paused _ _ _ _ Hr). simpl.
      destruct (laps s); [apply lc_first|apply lc_same].
  - destruct (isRunning s) eqn:Hr.
    + rewrite (pauseStopwatch_running _ Hr). apply lc_same.
    + rewrite (pauseStopwatch_paused _ Hr). apply lc_same.
  - destruct (snoc_cases (laps s)) as [Hl|(init & l & Hl)].
    + destruct (isRunning s) eqn:Hr.
      * rewrite (createLap_first _ _ _ _ Hr Hl), Hl. apply lc_first.
      * rewrite (createLap_ignored _ _ _ _ Hr Hl). apply lc_same.
    + rewrite (createLap_next _ _ _ _ _ _ Hl), Hl. simpl.
      apply lc_record. eauto.
  - rewrite resetStopwatch_closed. simpl. now apply lc_reset.
  - rewrite tick_closed.
    pose proof (laps_afterDisplay n1 s) as Hd.
    destruct (snoc_cases (laps s)) as [Hl|(init & l & Hl)].
    + rewrite checkLapAlarms_empty by congruence. simpl. rewrite Hd. apply lc_same.
    + rewrite (checkLapAlarms_last _ _ init l) by congruence.
      destruct (enabled l) eqn:He, (triggered l) eqn:Ht; simpl;
        try (rewrite Hd; apply lc_same).
      destruct (alarmDuration l <=? _); simpl.
      * rewrite Hl. now apply lc_fire.
      * rewrite Hd. apply lc_same.
  - destruct (Z.lt_ge_cases j 0) as [Hj|Hj];
      [rewrite (updateLapAlarmDuration_negative _ _ _ Hj); apply lc_same|].
    destruct (Z.lt_ge_cases j (Z.of_nat (length (laps s)))) as [Hlt|Hge].
    + destruct (index_in_range (laps s) j) as [lap Hlap]; [lia|].
      rewrite (updateLapAlarmDuration_at _ _ _ _ Hlap). simpl.
      now apply lc_edit.
    + rewrite (updateLapAlarmDuration_beyond _ _ _ Hge). apply lc_same.
  - destruct (Z.lt_ge_cases j 0) as [Hj|Hj];
      [rewrite (toggleLapAlarm_negative _ _ Hj); apply lc_same|].
    destruct (Z.lt_ge_cases j (Z.of_nat (length (laps s)))) as [Hlt|Hge].
    + destruct (index_in_range (laps s) j) as [lap Hlap]; [lia|].
      rewrite (toggleLapAlarm_at _ _ _ Hlap). simpl.
      now apply lc_toggle.
    + rewrite (toggleLapAlarm_beyond _ _ Hge). apply lc_same.
Qed.

(** * One active lap, and it is the last *)

Lemma isRecorded_closeLap r l : isRecorded l = false -> isRecorded (closeLap r l) = true.
Proof. intros H. unfold closeLap. now rewrite H. Qed.

Lemma closedFlags_insert ls n lap lap' :
  ls !! n = Some lap -> isRecorded lap' = isRecorded lap ->
  closedFlags (<[n := lap']> ls) = closedFlags ls.
Proof.
  intros Hn Hrec. unfold closedFlags. rewrite list_fmap_insert, Hrec.
  apply list_insert_id. now rewrite list_lookup_fmap, Hn.
Qed.

Lemma wellFormedLedger_step a ls ls' sounded :
  LedgerChange a ls ls' sounded -> wellFormedLedger ls -> wellFormedLedger ls'.
Proof.
  intros Hstep Hwf.
  destruct Hstep as [ls| ls _ | now d | init l r now d _ | init l He Ht
                    | ls j lap d _ Hj | ls j lap _ Hj].
  - exact Hwf.
  - now left.
  - right. now exists 0%nat.
  - right. destruct Hwf as [Hnil|[n Hn]]; [now destruct init|].
    unfold closedFlags in *. rewrite fmap_app in Hn. simpl in Hn.
    apply app_inj_tail in Hn as [Hinit Hl].
    exists (S n). rewrite replicate_S_end, fmap_app, Hinit, <- app_assoc. simpl.
    now rewrite (isRecorded_closeLap _ _ Hl).
  - right. destruct Hwf as [Hnil|[n Hn]]; [now destruct init|].
    exists n. unfold closedFlags in *. rewrite fmap_app in *. exact Hn.
  - apply index_Some in Hj as [_ Hj].
    destruct Hwf as [Hnil|[n Hn]]; [subst; discriminate|].
    right. exists n. now rewrite (closedFlags_insert _ _ lap).
  - apply index_Some in Hj as [_ Hj].
    destruct Hwf as [Hnil|[n Hn]]; [subst; discriminate|].
    right. exists n. now rewrite (closedFlags_insert _ _ lap).
Qed.

Lemma wellFormedLedger_run acts s :
  wellFormedLedger (laps s) -> wellFormedLedger (laps (run acts s)).
Proof.
  revert s. induction acts as [|a acts IH]; intros s Hwf; [exact Hwf|].
  simpl. apply IH. eapply wellFormedLedger_step; [apply perform_ledger|exact Hwf].
Qed.

Lemma wellFormedLedger_open ls i lap :
  wellFormedLedger ls -> ls !! i = Some lap ->
  isRecorded lap = false <-> S i = length ls.
Proof.
  intros [->|[n Hn]] Hi; [discriminate|].
  assert (Hlen : length ls = S n).
  { rewrite <- (length_fmap isRecorded ls). fold (closedFlags ls).
    rewrite Hn, length_app, length_replicate. simpl. lia. }
  assert (Hflag : (replicate n true ++ [false]) !! i = Some (isRecorded lap)).
  { rewrite <- Hn. unfold closedFlags. now rewrite list_lookup_fmap, Hi. }
  apply lookup_lt_Some in Hi as Hlt.
  destruct (decide (i < n)%nat) as [Hin|Hin].
  - rewrite lookup_app_l in Hflag by (rewrite length_replicate; lia).
    rewrite lookup_replicate_2 in Hflag by lia.
    injection Hflag as <-. split; [discriminate|lia].
  - assert (i = n) as -> by lia.
    rewrite list_lookup_middle in Hflag by (now rewrite length_replicate).
    injection Hflag as <-. split; [lia|reflexivity].
Qed.

(** C6. After any sequence of actions (start, pause, record lap, reset,
    and also ticks, duration edits and alarm toggles) from the initial
    state: at most one lap of the ledger is not recorded, a lap that is
    not recorded sits at the last position, and when the ledger is not
    empty its last lap is not recorded. *)
Theorem one_active_lap_at_the_end acts :
  let ls := laps (run acts initialState) in
  (forall i j li lj,
      ls !! i = Some li -> ls !! j = Some lj ->
      isRecorded li = false -> isRecorded lj = false -> i = j) /\
  (forall i li, ls !! i = Some li -> isRecorded li = false -> S i = length ls) /\
  (forall l, last ls = Some l -> isRecorded l = false).
Proof.
  intros ls.
  assert (Hwf : wellFormedLedger ls)
    by (apply wellFormedLedger_run; now left).
  split; [|split].
  - intros i j li lj Hi Hj Hli Hlj.
    apply (wellFormedLedger_open _ _ _ Hwf Hi) in Hli.
    apply (wellFormedLedger_open _ _ _ Hwf Hj) in Hlj. lia.
  - intros i li Hi Hli. now apply (wellFormedLedger_open _ _ _ Hwf Hi).
  - intros l Hl. rewrite last_lookup in Hl.
    apply (wellFormedLedger_open _ _ _ Hwf Hl).
    apply lookup_lt_Some in Hl. lia.
Qed.

Example one_active_lap_after_three_laps :
  closedFlags
    (laps (run [Start 0 0 1; RecordLap 10 10 10; Pause; RecordLap 20 20 20;
                Reset; Start 30 30 2; RecordLap 40 40 40; RecordLap 50 50 50]
               initialState))
  = [true; true; false].
Proof. vm_compute. reflexivity. Qed.

(** * A fired alarm does not sound again *)

Lemma silenced_step i a ls ls' sounded :
  LedgerChange a ls ls' sounded -> keepsAlarmCycle i a = true ->
  silenced i ls ->
  silenced i ls' /\ (sounded = true -> (length ls - 1)%nat <> i).
Proof.
  intros Hstep Hkeep (lap & Hi & Hlap).
  destruct Hstep as [ls| ls Ha | now d | init l r now d _ | init l He Ht
                    | ls j lap0 d Ha Hj | ls j lap0 Ha Hj].
  - split; [now exists lap|discriminate].
  - subst a. discriminate.
  - discriminate.
  - split; [|discriminate].
    apply lookup_lt_Some in Hi as Hlt. rewrite length_app in Hlt. simpl in Hlt.
    destruct (lookup_lt_is_Some_2 (init ++ [closeLap r l; newLap now d]) i)
      as [lap' Hlap']; [rewrite length_app; simpl; lia|].
    exists lap'. split; [exact Hlap'|]. right. rewrite length_app. simpl. lia.
  - apply lookup_lt_Some in Hi as Hlt. rewrite length_app in Hlt. simpl in Hlt.
    assert (Hin : (i < length init)%nat).
    { destruct (decide (i = length init)) as [->|]; [|lia].
      rewrite list_lookup_middle in Hi by reflexivity. injection Hi as <-.
      rewrite length_app in Hlap. simpl in Hlap.
      destruct Hlap; [congruence|lia]. }
    split.
    + exists lap. rewrite lookup_app_l in * by exact Hin.
      split; [exact Hi|]. rewrite length_app in *. exact Hlap.
    + intros _. rewrite length_app. simpl. lia.
  - subst a. simpl in Hkeep. apply negb_true_iff, Z.eqb_neq in Hkeep.
    apply index_Some in Hj as [Hj0 Hj]. split; [|discriminate].
    exists lap. rewrite list_lookup_insert_ne by lia.
    now rewrite length_insert.
  - subst a. simpl in Hkeep. apply negb_true_iff, Z.eqb_neq in Hkeep.
    apply index_Some in Hj as [Hj0 Hj]. split; [|discriminate].
    exists lap. rewrite list_lookup_insert_ne by lia.
    now rewrite length_insert.
Qed.

Lemma silenced_run i acts s :
  forallb (keepsAlarmCycle i) acts = true ->
  silenced i (laps s) -> ~ In i (soundedFor acts s).
Proof.
  revert s. induction acts as [|a acts IH]; intros s Hacts Hs; [intros []|].
  simpl in Hacts. apply andb_true_iff in Hacts as [Ha Hacts].
  destruct (silenced_step i a _ _ _ (perform_ledger a s) Ha Hs) as [Hs' Hsound].
  simpl. intros [Hin|Hin]%in_app_or.
  - destruct (existsb isAudioPlay (eventsOf (perform a s))); [|destruct Hin].
    destruct Hin as [Hin|[]]. now apply Hsound.
  - exact (IH _ Hacts Hs' Hin).
Qed.

(** C3. Once the [triggered] flag of lap [i] is set, no later evaluation
    sounds the alarm for lap [i], whatever ticks and user actions
    follow, as long as the lap exists (no reset) and neither its alarm
    is toggled nor its duration edited; each of those two calls clears
    the flag. *)
Theorem fired_alarm_stays_silent i acts s lap :
  laps s !! i = Some lap -> triggered lap = true ->
  forallb (keepsAlarmCycle i) acts = true ->
  ~ In i (soundedFor acts s) /\
  (forall d,
      triggered <$> laps (stateOf (updateLapAlarmDuration (Z.of_nat i) d s)) !! i
      = Some false) /\
  triggered <$> laps (stateOf (toggleLapAlarm (Z.of_nat i) s)) !! i = Some false.
Proof.
  intros Hi Ht Hacts.
  assert (Hidx : index (laps s) (Z.of_nat i) = Some lap) by now rewrite index_of_nat.
  apply lookup_lt_Some in Hi as Hlt.
  split; [|split].
  - apply silenced_run; [exact Hacts|]. exists lap. auto.
  - intros d. rewrite (updateLapAlarmDuration_at _ _ _ _ Hidx). simpl.
    rewrite Nat2Z.id, list_lookup_insert_eq by exact Hlt. reflexivity.
  - rewrite (toggleLapAlarm_at _ _ _ Hidx). simpl.
    rewrite Nat2Z.id, list_lookup_insert_eq by exact Hlt. reflexivity.
Qed.

Lemma fired_alarm_stays_silent_witness :
  let s := run [Start 0 0 1; Tick 60000 60000 60000] initialState in
  let acts := [Tick 60100 60100 60100; Pause; Start 70000 70000 2;
               Tick 70100 70100 70100; ToggleAlarm 1;
               RecordLap 70200 70200 70200; Tick 70300 70300 70300] in
  let lap := set_triggered true (newLap 0 60000) in
  laps s !! 0%nat = Some lap /\ triggered lap = true /\
  forallb (keepsAlarmCycle 0) acts = true /\
  ~ In 0%nat (soundedFor acts s) /\
  (forall d,
      triggered <$> laps (stateOf (updateLapAlarmDuration (Z.of_nat 0) d s)) !! 0%nat
      = Some false) /\
  triggered <$> laps (stateOf (toggleLapAlarm (Z.of_nat 0) s)) !! 0%nat = Some false.
Proof.
  cbv zeta. split; [reflexivity|]. split; [reflexivity|]. split; [reflexivity|].
  apply (fired_alarm_stays_silent 0
           [Tick 60100 60100 60100; Pause; Start 70000 70000 2;
            Tick 70100 70100 70100; ToggleAlarm 1;
            RecordLap 70200 70200 70200; Tick 70300 70300 70300]
           (run [Start 0 0 1; Tick 60000 60000 60000] initialState)
           (set_triggered true (newLap 0 60000))); reflexivity.
Defined.

(** The alarm of the first lap sounds once at its 60000 ms, stays
    silent on later ticks, and sounds again only after its duration has
    been edited. *)
Example alarm_sounds_once_per_cycle :
  soundedFor [Start 0 0 1; Tick 59900 59900 59900; Tick 60000 60000 60000;
              Tick 60100 60100 60100; Tick 60200 60200 60200;
              UpdateDuration 0 60000; Tick 60300 60300 60300;
              Tick 60400 60400 60400] initialState
  = [0%nat; 0%nat].
Proof. vm_compute. reflexivity. Qed.

(** * The recorded time of a closed lap *)

Lemma frozenAt_step i r c a ls ls' sounded :
  LedgerChange a ls ls' sounded -> notReset a = true ->
  frozenAt i r c ls -> frozenAt i r c ls'.
Proof.
  intros Hstep Hkeep (lap & Hi & Hrec & Hr & Hc).
  destruct Hstep as [ls| ls Ha | now d | init l r0 now d _ | init l He Ht
                    | ls j lap0 d Ha Hj | ls j lap0 Ha Hj].
  - now exists lap.
  - subst a. discriminate.
  - discriminate.
  - apply lookup_lt_Some in Hi as Hlt. rewrite length_app in Hlt. simpl in Hlt.
    destruct (decide (i = length init)) as [->|Hne].
    + rewrite list_lookup_middle in Hi by reflexivity. injection Hi as <-.
      exists (closeLap r0 l). rewrite list_lookup_middle by reflexivity.
      unfold closeLap. rewrite Hrec. simpl. auto.
    + exists lap. rewrite lookup_app_l in * by lia. auto.
  - apply lookup_lt_Some in Hi as Hlt. rewrite length_app in Hlt. simpl in Hlt.
    destruct (decide (i = length init)) as [->|Hne].
    + rewrite list_lookup_middle in Hi by reflexivity. injection Hi as <-.
      exists (set_triggered true l). rewrite list_lookup_middle by reflexivity.
      simpl. auto.
    + exists lap. rewrite lookup_app_l in * by lia. auto.
  - apply index_Some in Hj as [Hj0 Hj].
    destruct (decide (Z.to_nat j = i)) as [<-|Hne].
    + assert (lap0 = lap) as -> by congruence.
      eexists. rewrite list_lookup_insert_eq by (now apply lookup_lt_Some in Hi).
      split; [reflexivity|]. simpl. auto.
    + exists lap. now rewrite list_lookup_insert_ne.
  - apply index_Some in Hj as [Hj0 Hj].
    destruct (decide (Z.to_nat j = i)) as [<-|Hne].
    + assert (lap0 = lap) as -> by congruence.
      eexists. rewrite list_lookup_insert_eq by (now apply lookup_lt_Some in Hi).
      split; [reflexivity|]. simpl. auto.
    + exists lap. now rewrite list_lookup_insert_ne.
Qed.

(** The value [createLap] freezes into the lap it closes. *)
Lemma createLap_freezes now1 now2 now3 s init l :
  laps s = init ++ [l] -> isRecorded l = false ->
  frozenAt (length init) (Z.max 0 (pendingLapTime now1 s)) (createdAt l)
    (laps (stateOf (createLap now1 now2 now3 s))).
Proof.
  intros Hl Hrec. rewrite (createLap_next _ _ _ _ _ _ Hl). simpl.
  exists (closeLap (pendingLapTime now1 s) l).
  rewrite list_lookup_middle by reflexivity.
  unfold closeLap. rewrite Hrec. simpl. auto.
Qed.

(** C7, amended. The frozen value of a closed lap is its [recordedTime]
    field: whatever actions other than a reset follow, with whatever
    clock readings, lap [i] stays recorded with the same [recordedTime]
    (and the same [createdAt]).  [getLapElapsedTime] is not that value:
    it keeps following the clock. *)
Theorem recorded_time_stays_frozen i acts s lap :
  laps s !! i = Some lap -> isRecorded lap = true ->
  forallb notReset acts = true ->
  exists lap',
    laps (run acts s) !! i = Some lap' /\ isRecorded lap' = true /\
    recordedTime lap' = recordedTime lap /\ createdAt lap' = createdAt lap.
Proof.
  intros Hi Hrec Hacts.
  assert (H : frozenAt i (recordedTime lap) (createdAt lap) (laps s))
    by (exists lap; auto).
  clear Hi Hrec. revert s H.
  induction acts as [|a acts IH]; intros s H; [exact H|].
  simpl in Hacts. apply andb_true_iff in Hacts as [Ha Hacts].
  simpl. apply (IH Hacts).
  exact (frozenAt_step _ _ _ _ _ _ _ (perform_ledger a s) Ha H).
Qed.

Lemma recorded_time_stays_frozen_witness :
  let s := run [Start 0 0 1; RecordLap 1000 1000 1000] initialState in
  let acts := [Tick 2000 2000 2000; Pause; Start 9000 9000 2;
               ToggleAlarm 0; UpdateDuration 0 5; Tick 9100 9100 9100;
               RecordLap 9200 9200 9200] in
  let lap := {| createdAt := 0; recordedTime := 1000; alarmDuration := 60000;
                triggered := false; enabled := false; isRecorded := true |} in
  laps s !! 0%nat = Some lap /\ isRecorded lap = true /\
  forallb notReset acts = true /\
  exists lap',
    laps (run acts s) !! 0%nat = Some lap' /\ isRecorded lap' = true /\
    recordedTime lap' = recordedTime lap /\ createdAt lap' = createdAt lap.
Proof.
  cbv zeta. split; [reflexivity|]. split; [reflexivity|]. split; [reflexivity|].
  apply (recorded_time_stays_frozen 0
           [Tick 2000 2000 2000; Pause; Start 9000 9000 2;
            ToggleAlarm 0; UpdateDuration 0 5; Tick 9100 9100 9100;
            RecordLap 9200 9200 9200]
           (run [Start 0 0 1; RecordLap 1000 1000 1000] initialState));
    reflexivity.
Defined.

(** * A lap recorded during a pause, in general *)

Lemma index_appended {A : Type} (init : list A) (x y : A) :
  index (init ++ [x; y]) (Z.of_nat (length init) + 1) = Some y.
Proof.
  replace (Z.of_nat (length init) + 1) with (Z.of_nat (S (length init))) by lia.
  rewrite index_of_nat. change (init ++ [x; y]) with (init ++ x :: [y]).
  rewrite lookup_app_r by lia.
  now replace (S (length init) - length init)%nat with 1%nat by lia.
Qed.

(** The general shape of the behaviour above.  A lap recorded at wall
    time [now2] while the clock is paused reads 0 for the rest of the
    pause, provided the clock has not gone backwards since the last
    tick. *)
Lemma paused_lap_reads_zero now1 now2 now3 s init l now :
  isRunning s = false -> laps s = init ++ [l] ->
  toNumber (startTime s) + pausedTime s <= now2 ->
  let s' := stateOf (createLap now1 now2 now3 s) in
  getLapElapsedTime now (Z.of_nat (length init) + 1) s' = Returned 0 s' [].
Proof.
  intros Hr Hl Hmono. rewrite (createLap_next _ _ _ _ _ _ Hl). simpl.
  erewrite getLapElapsedTime_at by (simpl; apply index_appended).
  unfold mainElapsedTime. simpl. rewrite Hr. f_equal. lia.
Qed.

(** Once the clock is resumed the same lap reads the wall-clock time
    since [now2], pause included. *)
Lemma paused_lap_jumps_on_resume now1 now2 now3 r1 r2 handle s init l now :
  isRunning s = false -> laps s = init ++ [l] ->
  let s' := stateOf (createLap now1 now2 now3 s) in
  let s'' := stateOf (startStopwatch r1 r2 handle s') in
  getLapElapsedTime now (Z.of_nat (length init) + 1) s'' =
  Returned (Z.max 0 (now - now2)) s'' [].
Proof.
  intros Hr Hl. rewrite (createLap_next _ _ _ _ _ _ Hl). simpl.
  rewrite startStopwatch_paused by exact Hr. simpl.
  assert (E : match init ++ [closeLap (pendingLapTime now1 s) l;
                             newLap now2 (orDefault (index defaultAlarmDurations
                                            (Z.of_nat (length init + 1))) 300000)]
              with [] => [newLap r2 60000] | _ :: _ =>
                init ++ [closeLap (pendingLapTime now1 s) l;
                         newLap now2 (orDefault (index defaultAlarmDurations
                                        (Z.of_nat (length init + 1))) 300000)]
              end
              = init ++ [closeLap (pendingLapTime now1 s) l;
                         newLap now2 (orDefault (index defaultAlarmDurations
                                        (Z.of_nat (length init + 1))) 300000)])
    by (now destruct init).
  rewrite E.
  erewrite getLapElapsedTime_running;
    [|reflexivity|simpl; apply index_appended].
  reflexivity.
Qed.

(** * Every action, case by case *)

Lemma perform_Step a s : Step a s (stateOf (perform a s)) (eventsOf (perform a s)).
Proof.
  destruct a as [n1 n2 h| |n1 n2 n3| |n1 n2 n3|j d|j]; simpl perform.
  - destruct (isRunning s) eqn:Hr.
    + rewrite (startStopwatch_running _ _ _ _ Hr). now apply step_start_running.
    + rewrite (startStopwatch_paused _ _ _ _ Hr). now apply step_start_paused.
  - destruct (isRunning s) eqn:Hr.
    + rewrite (pauseStopwatch_running _ Hr). now apply step_pause_running.
    + rewrite (pauseStopwatch_paused _ Hr). now apply step_pause_paused.
  - destruct (snoc_cases (laps s)) as [Hl|(init & l & Hl)].
    + destruct (isRunning s) eqn:Hr.
      * rewrite (createLap_first _ _ _ _ Hr Hl). now apply step_lap_first.
      * rewrite (createLap_ignored _ _ _ _ Hr Hl). now apply step_lap_ignored.
    + rewrite (createLap_next _ _ _ _ _ _ Hl). now apply step_lap_next.
  - rewrite resetStopwatch_closed. apply step_reset.
  - rewrite tick_closed.
    pose proof (laps_afterDisplay n1 s) as Hd.
    destruct (snoc_cases (laps s)) as [Hl|(init & l & Hl)].
    + rewrite checkLapAlarms_empty by congruence. apply step_tick_quiet.
    + rewrite (checkLapAlarms_last _ _ init l) by congruence.
      destruct (enabled l) eqn:He, (triggered l) eqn:Ht; simpl;
        try apply step_tick_quiet.
      destruct (alarmDuration l <=? _); simpl.
      * now apply step_tick_fire.
      * apply step_tick_quiet.
  - destruct (Z.lt_ge_cases j 0) as [Hj|Hj];
      [rewrite (updateLapAlarmDuration_negative _ _ _ Hj); apply step_edit_out|].
    destruct (Z.lt_ge_cases j (Z.of_nat (length (laps s)))) as [Hlt|Hge].
    + destruct (index_in_range (laps s) j) as [lap Hlap]; [lia|].
      rewrite (updateLapAlarmDuration_at _ _ _ _ Hlap). now apply step_edit_at.
    + rewrite (updateLapAlarmDuration_beyond _ _ _ Hge). apply step_edit_out.
  - destruct (Z.lt_ge_cases j 0) as [Hj|Hj];
      [rewrite (toggleLapAlarm_negative _ _ Hj); apply step_toggle_out|].
    destruct (Z.lt_ge_cases j (Z.of_nat (length (laps s)))) as [Hlt|Hge].
    + destruct (index_in_range (laps s) j) as [lap Hlap]; [lia|].
      rewrite (toggleLapAlarm_at _ _ _ Hlap). now apply step_toggle_at.
    + rewrite (toggleLapAlarm_beyond _ _ Hge). apply step_toggle_out.
Qed.

Lemma run_app acts1 acts2 s : run (acts1 ++ acts2) s = run acts2 (run acts1 s).
Proof. revert s. induction acts1 as [|a acts1 IH]; intros s; simpl; auto. Qed.

Lemma runLog_app acts1 acts2 s :
  runLog (acts1 ++ acts2) s = runLog acts1 s ++ runLog acts2 (run acts1 s).
Proof.
  revert s. induction acts1 as [|a acts1 IH]; intros s; simpl; [reflexivity|].
  now rewrite IH, app_assoc.
Qed.

(** * Started or not *)

Lemma started_or_not_step a s s' evs :
  Step a s s' evs ->
  (neverStarted s \/ started s) /\ (isRunning s = true -> started s) /\
  elapsedTime s = pausedTime s ->
  (neverStarted s' \/ started s') /\ (isRunning s' = true -> started s') /\
  elapsedTime s' = pausedTime s'.
Proof.
  intros Hstep (Hcase & Hrun & Hel).
  destruct Hstep; simpl.
  - (* start while running *) auto.
  - (* start from a stopped clock *)
    assert (Hst : started
      {| isRunning := true; elapsedTime := elapsedTime s;
         startTime := Some (n1 - pausedTime s); pausedTime := pausedTime s;
         currentLapStartTime :=
           match currentLapStartTime s with
           | Some c => Some c | None => Some (n1 - pausedTime s) end;
         laps := match laps s with [] => [newLap n2 60000] | _ :: _ => laps s end;
         intervalId := Some h |}).
    { split; [eexists; reflexivity|]. simpl. split.
      - destruct (currentLapStartTime s); eexists; reflexivity.
      - destruct (laps s); discriminate. }
    split; [now right|]. split; [intros _; exact Hst|exact Hel].
  - (* pause *)
    split; [|split; [discriminate|exact Hel]].
    right. exact (Hrun H).
  - (* pause while stopped *) auto.
  - (* lap before the first start *) auto.
  - (* first lap while running with an empty ledger: excluded *)
    destruct (Hrun H) as (_ & _ & Hne). contradiction.
  - (* next lap *)
    assert (Hst : started s).
    { destruct Hcase as [(_ & _ & _ & _ & _ & Hl)|Hs]; [|exact Hs].
      rewrite Hl in H. now destruct init. }
    destruct Hst as (Hs1 & Hs2 & Hs3).
    assert (Hst' : started
      {| isRunning := isRunning s; elapsedTime := elapsedTime s;
         startTime := startTime s; pausedTime := pausedTime s;
         currentLapStartTime :=
           Some (if isRunning s then n3 else toNumber (startTime s) + pausedTime s);
         laps := init ++ [closeLap (pendingLapTime n1 s) l;
                          newLap n2 (orDefault (index defaultAlarmDurations
                                        (Z.of_nat (length init + 1))) 300000)];
         intervalId := intervalId s |}).
    { split; [exact Hs1|]. split; [eexists; reflexivity|]. simpl. now destruct init. }
    split; [now right|]. split; [intros _; exact Hst'|exact Hel].
  - (* reset *)
    split; [left; repeat split|]. split; [discriminate|reflexivity].
  - (* quiet tick *)
    unfold afterDisplay. destruct (isRunning s) eqn:Hr; simpl;
      [|split; [exact Hcase|split; [intros; congruence|exact Hel]]].
    split; [|split; [|reflexivity]].
    + right. exact (Hrun eq_refl).
    + intros _. exact (Hrun eq_refl).
  - (* firing tick *)
    assert (Hst : started s).
    { destruct Hcase as [(_ & _ & _ & _ & _ & Hl)|Hs]; [|exact Hs].
      rewrite Hl in H. now destruct init. }
    destruct Hst as (Hs1 & Hs2 & Hs3).
    assert (Hst' : started (set_laps (init ++ [set_triggered true l]) (afterDisplay n1 s))).
    { unfold afterDisplay. destruct (isRunning s); (split; [exact Hs1|]);
        (split; [exact Hs2|]); simpl; now destruct init. }
    split; [now right|]. split; [intros _; exact Hst'|].
    unfold afterDisplay. destruct (isRunning s); simpl; auto.
  - (* duration edit *)
    assert (Hst : started s).
    { destruct Hcase as [(_ & _ & _ & _ & _ & Hl)|Hs]; [|exact Hs].
      rewrite Hl in H. apply index_lt in H. simpl in H. lia. }
    destruct Hst as (Hs1 & Hs2 & Hs3).
    assert (Hst' : started
      (set_laps (<[Z.to_nat j := set_triggered false (set_alarmDuration d lap)]> (laps s)) s)).
    { split; [exact Hs1|]. split; [exact Hs2|]. simpl.
      intros Hnil. apply Hs3. apply (f_equal length) in Hnil.
      rewrite length_insert in Hnil. now destruct (laps s). }
    split; [now right|]. split; [intros _; exact Hst'|exact Hel].
  - (* duration edit out of range *) auto.
  - (* toggle *)
    assert (Hst : started s).
    { destruct Hcase as [(_ & _ & _ & _ & _ & Hl)|Hs]; [|exact Hs].
      rewrite Hl in H. apply index_lt in H. simpl in H. lia. }
    destruct Hst as (Hs1 & Hs2 & Hs3).
    assert (Hst' : started
      (set_laps (<[Z.to_nat j := set_triggered false
                                   (set_enabled (negb (enabled lap)) lap)]> (laps s)) s)).
    { split; [exact Hs1|]. split; [exact Hs2|]. simpl.
      intros Hnil. apply Hs3. apply (f_equal length) in Hnil.
      rewrite length_insert in Hnil. now destruct (laps s). }
    split; [now right|]. split; [intros _; exact Hst'|exact Hel].
  - (* toggle out of range *) auto.
Qed.

Lemma started_or_not_run acts s :
  (neverStarted s \/ started s) /\ (isRunning s = true -> started s) /\
  elapsedTime s = pausedTime s ->
  (neverStarted (run acts s) \/ started (run acts s)) /\
  (isRunning (run acts s) = true -> started (run acts s)) /\
  elapsedTime (run acts s) = pausedTime (run acts s).
Proof.
  revert s. induction acts as [|a acts IH]; intros s H; [exact H|].
  simpl. apply IH. exact (started_or_not_step _ _ _ _ (perform_Step a s) H).
Qed.

(** X1. In every state reached from the initial one, either the
    stopwatch has not been started since page load or the last reset,
    and then the state is the initial one up to the stale interval
    handle; or it has a start time, a current lap start time and at
    least one lap.  A running stopwatch is always in the second case,
    and [elapsedTime] always equals [pausedTime]. *)
Theorem started_or_pristine acts :
  let s := run acts initialState in
  (s = set_intervalId (intervalId s) initialState \/ started s) /\
  (laps s = [] <-> startTime s = None) /\
  (laps s = [] <-> currentLapStartTime s = None) /\
  (isRunning s = true -> started s) /\
  elapsedTime s = pausedTime s.
Proof.
  intros s.
  destruct (started_or_not_run acts initialState) as (Hcase & Hrun & Hel).
  { split; [left; repeat split|]. split; [discriminate|reflexivity]. }
  fold s in Hcase, Hrun, Hel.
  split; [|split; [|split; [|split]]]; [| | |exact Hrun|exact Hel].
  - destruct Hcase as [(H1 & H2 & H3 & H4 & H5 & H6)|Hs]; [left|now right].
    destruct s; simpl in *. now subst.
  - destruct Hcase as [(H1 & H2 & H3 & H4 & H5 & H6)|((st & Hst) & _ & Hne)].
    + now split.
    + split; [contradiction|congruence].
  - destruct Hcase as [(H1 & H2 & H3 & H4 & H5 & H6)|(_ & (c & Hc) & Hne)].
    + now split.
    + split; [contradiction|congruence].
Qed.

(** * The interval timer *)

Lemma liveTimers_app evs1 evs2 live :
  liveTimers (evs1 ++ evs2) live = liveTimers evs2 (liveTimers evs1 live).
Proof.
  revert live. induction evs1 as [|e evs1 IH]; intros live; [reflexivity|].
  destruct e as [| | | | |h|[h|]]; simpl; apply IH.
Qed.

Lemma isRunning_afterDisplay now s : isRunning (afterDisplay now s) = isRunning s.
Proof. unfold afterDisplay. now destruct (isRunning s) eqn:E. Qed.

Lemma intervalId_afterDisplay now s : intervalId (afterDisplay now s) = intervalId s.
Proof. unfold afterDisplay. now destruct (isRunning s). Qed.

Lemma timerInv_step a s s' evs live :
  Step a s s' evs -> timerInv s live -> timerInv s' (liveTimers evs live).
Proof.
  unfold timerInv. intros Hstep Hinv.
  destruct Hstep; simpl; try exact Hinv.
  - (* start from a stopped clock *)
    rewrite H in Hinv. subst live. eauto.
  - (* pause *)
    rewrite H in Hinv. destruct Hinv as (h & -> & ->). simpl.
    now rewrite Nat.eqb_refl.
  - (* first lap while running with an empty ledger *)
    now rewrite H in Hinv.
  - (* reset *)
    destruct (isRunning s).
    + destruct Hinv as (h & -> & ->). simpl. now rewrite Nat.eqb_refl.
    + subst live. now destruct (intervalId s).
  - (* quiet tick *)
    now rewrite isRunning_afterDisplay, intervalId_afterDisplay.
  - (* firing tick *)
    now rewrite isRunning_afterDisplay, intervalId_afterDisplay.
Qed.

Lemma timerInv_run acts s live :
  timerInv s live -> timerInv (run acts s) (liveTimers (runLog acts s) live).
Proof.
  revert s live. induction acts as [|a acts IH]; intros s live H; [exact H|].
  simpl. rewrite liveTimers_app. apply IH.
  exact (timerInv_step _ _ _ _ _ (perform_Step a s) H).
Qed.

(** X2. After any sequence of actions from the initial state, whatever
    handles [setInterval] returned: while the stopwatch runs exactly one
    interval timer is live, the one whose handle is in
    [state.intervalId]; while it is stopped (paused, reset or never
    started) no timer is live. *)
Theorem one_timer_while_running acts :
  let s := run acts initialState in
  let live := liveTimers (runLog acts initialState) [] in
  if isRunning s then exists h, intervalId s = Some h /\ live = [h]
  else live = [].
Proof. intros s live. now apply (timerInv_run acts initialState []). Qed.

(** * What is written to local storage *)

Lemma savedSnapshots_app evs1 evs2 :
  savedSnapshots (evs1 ++ evs2) = savedSnapshots evs1 ++ savedSnapshots evs2.
Proof.
  induction evs1 as [|e evs1 IH]; [reflexivity|].
  destruct e; simpl; now rewrite ?IH.
Qed.

Lemma snoc_two {A : Type} (init : list A) (a b : A) :
  init ++ [a; b] = (init ++ [a]) ++ [b].
Proof. now rewrite <- app_assoc. Qed.

Lemma earlierUntriggered_close init l r x :
  earlierUntriggered (init ++ [l]) ->
  Forall (fun lap => triggered lap = false) (init ++ [closeLap r l]) /\
  earlierUntriggered (init ++ [closeLap r l; x]).
Proof.
  intros Hinv.
  assert (Hall : Forall (fun lap => triggered lap = false) (init ++ [closeLap r l])).
  { apply Forall_app. split.
    - apply Forall_lookup. intros i lap Hi.
      apply (Hinv i lap).
      + rewrite lookup_app_l by (now apply lookup_lt_Some in Hi). exact Hi.
      + apply lookup_lt_Some in Hi. rewrite length_app. simpl. lia.
    - constructor; [|constructor]. unfold closeLap. now destruct (isRecorded l). }
  split; [exact Hall|].
  intros i lap Hi Hlt. rewrite length_app in Hlt. simpl in Hlt.
  rewrite snoc_two in Hi.
  rewrite lookup_app_l in Hi by (rewrite length_app; simpl; lia).
  exact (proj1 (Forall_lookup _ _) Hall i lap Hi).
Qed.

Lemma earlierUntriggered_step a s s' evs :
  Step a s s' evs -> earlierUntriggered (laps s) ->
  earlierUntriggered (laps s') /\
  Forall (Forall (fun r => saved_triggered r = false)) (savedSnapshots evs).
Proof.
  intros Hstep Hinv.
  destruct Hstep; simpl; try (split; [exact Hinv|constructor]).
  - (* start from a stopped clock *)
    split; [|constructor]. destruct (laps s); [|exact Hinv].
    intros [|i] lap Hi Hlt; simpl in *; lia.
  - (* first lap *)
    split; [intros [|i] lap Hi Hlt; simpl in *; lia|].
    repeat constructor.
  - (* next lap *)
    rewrite H in Hinv.
    destruct (earlierUntriggered_close init l (pendingLapTime n1 s)
                (newLap n2 (orDefault (index defaultAlarmDurations
                              (Z.of_nat (length init + 1))) 300000)) Hinv)
      as [Hall Hnext].
    split; [exact Hnext|]. constructor; [|constructor].
    rewrite snoc_two, map_app. apply Forall_app. split.
    + apply Forall_map. exact Hall.
    + repeat constructor.
  - (* reset *)
    split; [|constructor]. intros i lap Hi. discriminate.
  - (* quiet tick *)
    split; [|constructor]. now rewrite laps_afterDisplay.
  - (* firing tick *)
    split; [|constructor]. rewrite H in Hinv.
    intros i lap Hi Hlt. rewrite length_app in Hlt. simpl in Hlt.
    rewrite lookup_app_l in Hi by lia.
    apply (Hinv i lap).
    + rewrite lookup_app_l by lia. exact Hi.
    + rewrite length_app. simpl. lia.
  - (* duration edit *)
    split; [|constructor]. intros i lap' Hi Hlt. rewrite length_insert in Hlt.
    apply list_lookup_insert_Some in Hi as [(_ & <- & _)|(Hne & Hi)];
      [reflexivity|now apply (Hinv i lap')].
  - (* toggle *)
    split; [|constructor]. intros i lap' Hi Hlt. rewrite length_insert in Hlt.
    apply list_lookup_insert_Some in Hi as [(_ & <- & _)|(Hne & Hi)];
      [reflexivity|now apply (Hinv i lap')].
Qed.

Lemma snapshots_untriggered_run acts s :
  earlierUntriggered (laps s) ->
  Forall (Forall (fun r => saved_triggered r = false)) (savedSnapshots (runLog acts s)).
Proof.
  revert s. induction acts as [|a acts IH]; intros s H; [constructor|].
  simpl. rewrite savedSnapshots_app. apply Forall_app.
  destruct (earlierUntriggered_step _ _ _ _ (perform_Step a s) H) as [H' Hs].
  split; [exact Hs|now apply IH].
Qed.

(** X3. Whatever happens, no array written to local storage records a
    fired alarm: in every snapshot saved by [saveLapsToStorage] during
    any run from the initial state, every record has [triggered] false.
    (The save happens in [createLap] only, right after the closing lap's
    flag has been cleared, and earlier laps can no longer fire.) *)
Theorem saved_laps_never_triggered acts :
  Forall (Forall (fun r => saved_triggered r = false))
         (savedSnapshots (runLog acts initialState)).
Proof.
  apply snapshots_untriggered_run. intros i lap Hi. discriminate.
Qed.

(** The alarm of the first lap fires at 60000 and is shown as fired in
    the ledger, but the array saved at the next lap does not say so. *)
Example saved_after_fired_alarm :
  let acts := [Start 0 0 1; Tick 60000 60000 60000] in
  (triggered <$> laps (run acts initialState)) = [true] /\
  savedSnapshots (runLog (acts ++ [RecordLap 61000 61000 61000]) initialState)
  = [[ {| saved_createdAt := 0; saved_recordedTime := 61000;
          saved_alarmDuration := 60000; saved_triggered := false;
          saved_enabled := false |};
       {| saved_createdAt := 61000; saved_recordedTime := 0;
          saved_alarmDuration := 60000; saved_triggered := false;
          saved_enabled := true |} ]].
Proof. cbv zeta. repeat apply conj; vm_compute; reflexivity. Qed.

(** * Calls to the audio element *)

Lemma audio_calls_step a s s' evs :
  Step a s s' evs ->
  length (List.filter isAudioStop evs)
  = match a with
    | RecordLap _ _ _ => if lapAccepted s then 1%nat else 0%nat
    | _ => 0%nat
    end /\
  (length (List.filter isAudioPlay evs) <= 1)%nat /\
  match a with
  | Tick _ _ _ => True
  | _ => List.filter isAudioPlay evs = []
  end.
Proof.
  unfold lapAccepted.
  intros Hstep. destruct Hstep; simpl; repeat split; try lia;
    try (rewrite H; reflexivity).
  - now rewrite H, H0.
  - rewrite H, length_app. simpl. rewrite Nat.add_1_r. simpl.
    now rewrite andb_false_r.
Qed.

(** X4. Which actions reach the audio element.  [stopAlarmSound] is
    called exactly once by every [createLap] that passes its guard and
    by nothing else: pausing or resetting does not silence a sounding
    alarm.  [playAlarmSound] is called at most once per action, and only
    by a tick. *)
Theorem audio_calls a s :
  let evs := eventsOf (perform a s) in
  length (List.filter isAudioStop evs)
  = match a with
    | RecordLap _ _ _ => if lapAccepted s then 1%nat else 0%nat
    | _ => 0%nat
    end /\
  (length (List.filter isAudioPlay evs) <= 1)%nat /\
  match a with
  | Tick _ _ _ => True
  | _ => List.filter isAudioPlay evs = []
  end.
Proof. exact (audio_calls_step _ _ _ _ (perform_Step a s)). Qed.

(** * Reset, then start *)

(** X5. A reset followed by a start leaves nothing of the earlier
    session: from any state, the state reached and the calls made from
    the start onwards are those of a start on a freshly loaded page,
    whatever actions follow. *)
Theorem reset_then_start_is_fresh s now1 now2 handle acts :
  run (Reset :: Start now1 now2 handle :: acts) s
  = run (Start now1 now2 handle :: acts) initialState /\
  runLog (Start now1 now2 handle :: acts) (run [Reset] s)
  = runLog (Start now1 now2 handle :: acts) initialState.
Proof.
  cbn [run runLog perform]. rewrite (resetStopwatch_closed s). cbn [stateOf].
  rewrite !startStopwatch_paused by reflexivity. split; reflexivity.
Qed.

(** * Default alarm durations *)

Lemma defaultDurationAt_cases i :
  defaultDurationAt i = if (i <? 3)%nat then 1 * 60 * 1000 else 5 * 60 * 1000.
Proof.
  unfold defaultDurationAt.
  do 5 (destruct i as [|i]; [reflexivity|]).
  rewrite index_of_nat.
  replace (defaultAlarmDurations !! S (S (S (S (S i))))) with (@None Z); [reflexivity|].
  symmetry. apply lookup_ge_None. simpl. lia.
Qed.

Lemma default_durations_step a s s' evs :
  Step a s s' evs -> notEdit a = true ->
  (forall i lap, laps s !! i = Some lap -> alarmDuration lap = defaultDurationAt i) ->
  forall i lap, laps s' !! i = Some lap -> alarmDuration lap = defaultDurationAt i.
Proof.
  intros Hstep Hne Hinv.
  destruct Hstep; simpl.
  - exact Hinv.
  - (* start from a stopped clock *)
    destruct (laps s) eqn:E; [|exact Hinv].
    intros [|i] lap Hi; [|discriminate]. now injection Hi as <-.
  - exact Hinv.
  - exact Hinv.
  - exact Hinv.
  - (* first lap *)
    intros [|i] lap Hi; [|discriminate]. now injection Hi as <-.
  - (* next lap *)
    rewrite H in Hinv. intros i lap Hi. rewrite snoc_two in Hi.
    apply lookup_app_Some in Hi as [Hi|[Hge Hi]].
    + apply lookup_app_Some in Hi as [Hi|[Hge Hi]].
      * apply Hinv. now apply lookup_app_l_Some.
      * rewrite <- (Hinv i l).
        -- destruct (i - length init)%nat eqn:E; [|discriminate].
           injection Hi as <-. unfold closeLap. now destruct (isRecorded l).
        -- destruct (i - length init)%nat eqn:E; [|discriminate].
           replace i with (length init) by lia. now apply list_lookup_middle.
    + rewrite length_app in *. simpl in *.
      destruct (i - (length init + 1))%nat eqn:E; [|discriminate].
      injection Hi as <-. simpl.
      replace i with (length init + 1)%nat by lia. reflexivity.
  - (* reset *)
    intros i lap Hi. discriminate.
  - (* quiet tick *)
    now rewrite laps_afterDisplay.
  - (* firing tick *)
    rewrite H in Hinv. intros i lap Hi.
    apply lookup_app_Some in Hi as [Hi|[Hge Hi]].
    + apply Hinv. now apply lookup_app_l_Some.
    + destruct (i - length init)%nat eqn:E; [|discriminate].
      injection Hi as <-. simpl. apply (Hinv i l).
      replace i with (length init) by lia. now apply list_lookup_middle.
  - discriminate.
  - discriminate.
  - (* toggle *)
    intros i lap' Hi. apply index_Some in H as [_ H].
    apply list_lookup_insert_Some in Hi as [(<- & <- & _)|(_ & Hi)].
    + simpl. now apply Hinv.
    + now apply Hinv.
  - exact Hinv.
Qed.

(** X6. As long as no alarm duration is edited, the alarm duration of a
    lap is determined by its position in the ledger alone: 60000 ms for
    the first three laps and 300000 ms for every later one (the table
    entries for the fourth and fifth lap equal the fallback). *)
Theorem default_durations_by_position acts i lap :
  forallb notEdit acts = true ->
  laps (run acts initialState) !! i = Some lap ->
  alarmDuration lap = if (i <? 3)%nat then 1 * 60 * 1000 else 5 * 60 * 1000.
Proof.
  intros Hacts Hi. rewrite <- defaultDurationAt_cases.
  revert i lap Hi.
  assert (Hinit : forall i lap, laps initialState !! i = Some lap ->
                    alarmDuration lap = defaultDurationAt i)
    by (intros i lap Hi; discriminate).
  revert Hinit Hacts. generalize initialState.
  induction acts as [|a acts IH]; intros s Hinv Hacts; [exact Hinv|].
  simpl in Hacts. apply andb_true_iff in Hacts as [Ha Hacts].
  simpl. apply IH; [|exact Hacts].
  exact (default_durations_step _ _ _ _ (perform_Step a s) Ha Hinv).
Qed.

Lemma default_durations_by_position_witness :
  let acts := [Start 0 0 1; RecordLap 10 10 10; RecordLap 20 20 20;
               Pause; RecordLap 30 30 30; ToggleAlarm 0] in
  let lap := newLap 30 300000 in
  forallb notEdit acts = true /\
  laps (run acts initialState) !! 3%nat = Some lap /\
  alarmDuration lap = if (3 <? 3)%nat then 1 * 60 * 1000 else 5 * 60 * 1000.
Proof.
  cbv zeta. split; [reflexivity|]. split; [reflexivity|].
  apply (default_durations_by_position
           [Start 0 0 1; RecordLap 10 10 10; RecordLap 20 20 20;
            Pause; RecordLap 30 30 30; ToggleAlarm 0] 3 (newLap 30 300000));
    reflexivity.
Defined.

(** * The main clock under an ordered wall clock *)

Lemma latest_app t ts1 ts2 : latest t (ts1 ++ ts2) = latest (latest t ts1) ts2.
Proof. revert t. induction ts1 as [|x ts1 IH]; intros t; simpl; auto. Qed.

Lemma ascending_app t ts1 ts2 :
  ascending t (ts1 ++ ts2) = ascending t ts1 && ascending (latest t ts1) ts2.
Proof.
  revert t. induction ts1 as [|x ts1 IH]; intros t; [reflexivity|].
  cbn [ascending app latest]. now rewrite IH, andb_assoc.
Qed.

Lemma ascending_latest t ts : ascending t ts = true -> t <= latest t ts.
Proof.
  revert t. induction ts as [|x ts IH]; intros t H; [simpl; lia|].
  cbn [ascending] in H. apply andb_true_iff in H as [Hx H].
  apply Z.leb_le in Hx. specialize (IH x H). simpl. lia.
Qed.

Lemma clockInv_weaken t t' s : t <= t' -> clockInv t s -> clockInv t' s.
Proof.
  intros Ht (H0 & Hr & Hst). split; [exact H0|]. split; [exact Hr|].
  intros st E. specialize (Hst st E). lia.
Qed.

Lemma clockInv_same_clock t s s' :
  pausedTime s' = pausedTime s -> startTime s' = startTime s ->
  (isRunning s' = true -> isRunning s = true) ->
  clockInv t s -> clockInv t s'.
Proof.
  intros Hp Hs Hr (I0 & I1 & I2). unfold clockInv. rewrite Hp, Hs. auto.
Qed.

Lemma clockInv_step t a s s' evs :
  Step a s s' evs -> ascending t (readings a) = true -> clockInv t s ->
  clockInv (latest t (readings a)) s' /\
  (notReset a = true -> pausedTime s <= pausedTime s').
Proof.
  intros Hstep Hasc Hinv.
  pose proof (ascending_latest _ _ Hasc) as Hlast.
  pose proof (clockInv_weaken _ _ s Hlast Hinv) as Hinv'.
  destruct Hinv as (H0 & Hr & Hst).
  destruct Hstep.
  - (* start while running *)
    split; [exact Hinv'|intros _; lia].
  - (* start from a stopped clock *)
    simpl in *. apply andb_true_iff in Hasc as [_ Hasc].
    apply andb_true_iff in Hasc as [Hasc _]. apply Z.leb_le in Hasc.
    split; [|intros _; lia]. split; [exact H0|]. split; [eauto|].
    simpl. intros st [= <-]. lia.
  - (* pause *)
    split; [|intros _; simpl; lia].
    apply (clockInv_same_clock _ s); auto.
  - (* pause while stopped *)
    split; [exact Hinv'|intros _; lia].
  - (* lap before the first start *)
    split; [exact Hinv'|intros _; lia].
  - (* first lap *)
    split; [|intros _; simpl; lia].
    apply (clockInv_same_clock _ s); auto.
  - (* next lap *)
    split; [|intros _; simpl; lia].
    apply (clockInv_same_clock _ s); auto.
  - (* reset *)
    split; [|discriminate]. split; [simpl; lia|]. split; discriminate.
  - (* quiet tick *)
    simpl in Hasc. apply andb_true_iff in Hasc as [Hn1 Hasc].
    apply Z.leb_le in Hn1.
    apply (ascending_latest n1 [n2; n3]) in Hasc. simpl in Hasc, Hlast.
    unfold afterDisplay. destruct (isRunning s) eqn:Hrun;
      [|split; [exact Hinv'|intros _; lia]].
    destruct (Hr eq_refl) as [st Est]. specialize (Hst st Est).
    unfold clockInv. simpl. rewrite !Est. simpl.
    split; [|intros _; lia]. split; [lia|]. split; [eauto|].
    intros st' [= <-]. lia.
  - (* firing tick *)
    simpl in Hasc. apply andb_true_iff in Hasc as [Hn1 Hasc].
    apply Z.leb_le in Hn1.
    apply (ascending_latest n1 [n2; n3]) in Hasc. simpl in Hasc, Hlast.
    unfold afterDisplay. destruct (isRunning s) eqn:Hrun;
      [|split; [exact Hinv'|intros _; simpl; lia]].
    destruct (Hr eq_refl) as [st Est]. specialize (Hst st Est).
    unfold clockInv. simpl. rewrite !Est. simpl.
    split; [|intros _; lia]. split; [lia|]. split; [eauto|].
    intros st' [= <-]. lia.
  - (* duration edit *)
    split; [|intros _; simpl; lia].
    apply (clockInv_same_clock _ s); auto.
  - split; [exact Hinv'|intros _; lia].
  - (* toggle *)
    split; [|intros _; simpl; lia].
    apply (clockInv_same_clock _ s); auto.
  - split; [exact Hinv'|intros _; lia].
Qed.

Lemma clockInv_run t acts s :
  ascending t (flat_map readings acts) = true -> clockInv t s ->
  clockInv (latest t (flat_map readings acts)) (run acts s) /\
  (forallb notReset acts = true -> pausedTime s <= pausedTime (run acts s)).
Proof.
  revert t s. induction acts as [|a acts IH]; intros t s Hasc Hinv.
  - split; [exact Hinv|intros _; simpl; lia].
  - cbn [flat_map] in *. rewrite ascending_app in Hasc.
    apply andb_true_iff in Hasc as [Ha Hacts].
    destruct (clockInv_step t a s _ _ (perform_Step a s) Ha Hinv) as [Hinv1 Hmono1].
    destruct (IH _ _ Hacts Hinv1) as [Hinv2 Hmono2].
    cbn [run]. split.
    + rewrite latest_app. exact Hinv2.
    + cbn [forallb]. intros [Hn1 Hn2]%andb_true_iff.
      specialize (Hmono1 Hn1). specialize (Hmono2 Hn2). lia.
Qed.

(** X7. When the wall clock never goes back, the elapsed time of the
    main stopwatch never does either: [pausedTime] is never negative,
    it never decreases from one state to a later one unless the
    stopwatch is reset in between, and the elapsed time computed at any
    later instant is at least [pausedTime]. *)
Theorem elapsed_never_goes_back t0 acts1 acts2 :
  ascending t0 (flat_map readings (acts1 ++ acts2)) = true ->
  forallb notReset acts2 = true ->
  let s1 := run acts1 initialState in
  let s2 := run (acts1 ++ acts2) initialState in
  0 <= pausedTime s1 <= pausedTime s2 /\
  forall now, latest t0 (flat_map readings (acts1 ++ acts2)) <= now ->
              pausedTime s2 <= mainElapsedTime now s2.
Proof.
  intros Hasc Hnr s1 s2. subst s1 s2.
  rewrite flat_map_app, ascending_app in Hasc.
  apply andb_true_iff in Hasc as [Hasc1 Hasc2].
  assert (Hinit : clockInv t0 initialState).
  { split; [simpl; lia|]. split; discriminate. }
  destruct (clockInv_run _ _ _ Hasc1 Hinit) as [Hinv1 _].
  destruct (clockInv_run _ _ _ Hasc2 Hinv1) as [Hinv2 Hmono].
  rewrite run_app, flat_map_app, latest_app.
  destruct Hinv1 as (H1 & _). specialize (Hmono Hnr).
  split; [lia|]. intros now Hnow.
  destruct Hinv2 as (H2 & Hr & Hst). unfold mainElapsedTime.
  destruct (isRunning _) eqn:E; [|lia].
  destruct (Hr eq_refl) as [st Est]. specialize (Hst st Est).
  rewrite Est. simpl. lia.
Qed.

Lemma elapsed_never_goes_back_witness :
  let acts1 := [Start 100 100 1; Tick 200 200 200; Pause] in
  let acts2 := [Start 900 900 2; Tick 1000 1000 1000; RecordLap 1100 1100 1100] in
  let s1 := run acts1 initialState in
  let s2 := run (acts1 ++ acts2) initialState in
  ascending 0 (flat_map readings (acts1 ++ acts2)) = true /\
  forallb notReset acts2 = true /\
  0 <= pausedTime s1 <= pausedTime s2 /\
  forall now, latest 0 (flat_map readings (acts1 ++ acts2)) <= now ->
              pausedTime s2 <= mainElapsedTime now s2.
Proof.
  cbv zeta. split; [reflexivity|]. split; [reflexivity|].
  apply (elapsed_never_goes_back 0
           [Start 100 100 1; Tick 200 200 200; Pause]
           [Start 900 900 2; Tick 1000 1000 1000; RecordLap 1100 1100 1100]);
    reflexivity.
Defined.

(** * Time formatting and parsing *)

Example formatTime_examples :
  formatTime 0 = "00:00:00"%string /\
  formatTime 3723999 = "01:02:03"%string /\
  formatTime 360000000 = "100:00:00"%string /\
  formatTime (-1) = "-1:-1:-1"%string.
Proof. repeat apply conj; vm_compute; reflexivity. Qed.

Example parseTimeString_examples :
  parseTimeString "5:30"%string = Some 330000 /\
  parseTimeString "90"%string = Some 90000 /\
  parseTimeString "1:60"%string = None /\
  parseTimeString ""%string = None /\
  parseTimeString " 7:05 pm"%string = Some 425000 /\
  parseTimeString "-1:30"%string = Some (-30000) /\
  parseTimeString "00:01:30"%string = None.
Proof. repeat apply conj; vm_compute; reflexivity. Qed.

(** ** Decimal digits *)

Ltac reduce_digit :=
  match goal with
  | |- context [digitValue ?c] =>
      let v := eval vm_compute in (digitValue c) in
      change (digitValue c) with v; cbv beta iota
  end.

Lemma digit_char c d :
  digitValue c = Some d ->
  isWhiteSpace c = false /\ Ascii.eqb c "-"%char = false /\
  Ascii.eqb c "+"%char = false /\ Ascii.eqb c ":"%char = false.
Proof.
  destruct c as [[|] [|] [|] [|] [|] [|] [|] [|]]; intros H;
    vm_compute in H; try discriminate H; vm_compute; repeat split.
Qed.

Lemma allDigits_string_of_uint d :
  allDigits (DecimalString.NilEmpty.string_of_uint d) = true.
Proof.
  induction d; [reflexivity|..];
    cbn [DecimalString.NilEmpty.string_of_uint allDigits];
    reduce_digit; exact IHd.
Qed.



Lemma to_uint_not_Nil n : Nat.to_uint n <> Decimal.Nil.
Proof.
  intros E. pose proof (DecimalNat.Unsigned.of_to n) as H.
  rewrite E in H. cbn in H. subst n. discriminate E.
Qed.

Lemma decimal_unfold n :
  decimal n = DecimalString.NilEmpty.string_of_uint (Nat.to_uint n).
Proof.
  unfold decimal, DecimalString.NilZero.string_of_uint.
  pose proof (to_uint_not_Nil n). now destruct (Nat.to_uint n).
Qed.

Lemma allDigits_decimal n : allDigits (decimal n) = true.
Proof. rewrite decimal_unfold. apply allDigits_string_of_uint. Qed.




(** ** Reading a number back *)






(** ** Splitting at colons *)

Lemma noColon_allDigits s : allDigits s = true -> noColon s = true.
Proof.
  induction s as [|c r IH]; [reflexivity|]. simpl.
  destruct (digitValue c) as [d|] eqn:E; [|discriminate].
  destruct (digit_char c d E) as (_ & _ & _ & ->). auto.
Qed.

Lemma noColon_append a b :
  noColon a = true -> noColon b = true -> noColon (String.append a b) = true.
Proof.
  intros Ha Hb. induction a as [|c r IH]; [exact Hb|].
  simpl in *. apply andb_true_iff in Ha as [-> Ha]. auto.
Qed.

Lemma noColon_numberToString x : noColon (numberToString x) = true.
Proof.
  unfold numberToString. destruct (x <? 0); simpl;
    apply noColon_allDigits, allDigits_decimal.
Qed.

Lemma noColon_padded x : noColon (padStart 2 "0"%char (numberToString x)) = true.
Proof.
  unfold padStart. apply noColon_append; [|apply noColon_numberToString].
  induction (2 - String.length (numberToString x))%nat; simpl; auto.
Qed.

Lemma splitOn_noColon a : noColon a = true -> splitOn ":"%char a = [a].
Proof.
  induction a as [|c r IH]; [reflexivity|]. simpl.
  intros [Hc Hr]%andb_true_iff. apply negb_true_iff in Hc.
  now rewrite Hc, (IH Hr).
Qed.

Lemma splitOn_append a b :
  noColon a = true ->
  splitOn ":"%char (String.append a (String.String ":"%char b))
  = a :: splitOn ":"%char b.
Proof.
  induction a as [|c r IH]; [reflexivity|]. simpl.
  intros [Hc Hr]%andb_true_iff. apply negb_true_iff in Hc.
  now rewrite Hc, (IH Hr).
Qed.

(** ** [formatTime] and [parseTimeString] *)

Lemma formatTime_unfold ms :
  formatTime ms =
  String.append (padStart 2 "0"%char (numberToString (ms / 1000 / 3600)))
    (String.String ":"%char
       (String.append
          (padStart 2 "0"%char (numberToString (Z.rem (ms / 1000) 3600 / 60)))
          (String.String ":"%char
             (padStart 2 "0"%char (numberToString (Z.rem (ms / 1000) 60)))))).
Proof. reflexivity. Qed.

Lemma splitOn_formatTime ms :
  splitOn ":"%char (formatTime ms) =
  [padStart 2 "0"%char (numberToString (ms / 1000 / 3600));
   padStart 2 "0"%char (numberToString (Z.rem (ms / 1000) 3600 / 60));
   padStart 2 "0"%char (numberToString (Z.rem (ms / 1000) 60))].
Proof.
  rewrite formatTime_unfold.
  rewrite !splitOn_append by apply noColon_padded.
  now rewrite splitOn_noColon by apply noColon_padded.
Qed.











(** X13. [parseTimeString] never accepts a text produced by
    [formatTime]: that text has three colon-separated parts, and only
    one or two are read. *)
Theorem parseTimeString_formatTime ms : parseTimeString (formatTime ms) = None.
Proof.
  unfold parseTimeString. rewrite splitOn_formatTime. reflexivity.
Qed.

(** * Lap times add up *)

Lemma fmap_insert_same {B : Type} (f : Lap -> B) (ls : list Lap) (n : nat) lap lap' :
  ls !! n = Some lap -> f lap' = f lap -> f <$> <[n := lap']> ls = f <$> ls.
Proof.
  intros Hn Hf. rewrite list_fmap_insert, Hf.
  apply list_insert_id. now rewrite list_lookup_fmap, Hn.
Qed.

Lemma sumRecorded_app ls1 ls2 :
  sumRecorded (ls1 ++ ls2) = sumRecorded ls1 + sumRecorded ls2.
Proof.
  unfold sumRecorded. rewrite fmap_app.
  induction (recordedTime <$> ls1) as [|x xs IH]; simpl; lia.
Qed.

Lemma sumRecorded_one lap : sumRecorded [lap] = recordedTime lap.
Proof. unfold sumRecorded. simpl. lia. Qed.

Lemma lapsAddUp_step t0 t a s :
  steady a = true -> ascending t (readings a) = true ->
  lapsAddUp t0 t s -> lapsAddUp t0 (latest t (readings a)) (stateOf (perform a s)).
Proof.
  intros Hsteady Hasc (Hr & Hst & (c & Hc & Hct & Hsum) & Hwf & Hne & Hzero).
  pose proof (ascending_latest _ _ Hasc) as Hlast.
  pose proof (wellFormedLedger_step _ _ _ _ (perform_ledger a s) Hwf) as Hwf'.
  pose proof (perform_Step a s) as Hstep.
  remember (stateOf (perform a s)) as s' eqn:Es'. clear Es'.
  remember (eventsOf (perform a s)) as evs eqn:Eevs. clear Eevs.
  unfold lapsAddUp.
  destruct Hstep.
  - (* start while running *)
    repeat (split; [assumption|]). split; [|auto]. exists c. repeat split; auto; lia.
  - congruence.
  - discriminate.
  - discriminate.
  - congruence.
  - contradiction.
  - (* next lap *)
    simpl in Hsteady, Hasc, Hlast. apply Z.eqb_eq in Hsteady. subst n3.
    apply andb_true_iff in Hasc as [Hn1 _]. apply Z.leb_le in Hn1.
    assert (Hl : isRecorded l = false /\ recordedTime l = 0).
    { assert (Hi : laps s !! length init = Some l)
        by (rewrite H; now apply list_lookup_middle).
      assert (Hopen : isRecorded l = false).
      { apply (wellFormedLedger_open _ _ _ Hwf Hi).
        rewrite H, length_app. simpl. lia. }
      split; [exact Hopen|].
      unfold openLapsAtZero in Hzero. rewrite Forall_lookup in Hzero.
      exact (Hzero _ _ Hi Hopen). }
    destruct Hl as [Hopen Hrec0].
    assert (Hpend : pendingLapTime n1 s = n1 - c)
      by (unfold pendingLapTime; now rewrite Hc, Hr).
    simpl. rewrite Hr. split; [reflexivity|]. split; [exact Hst|].
    split; [|split; [exact Hwf'|split]].
    + exists n1. split; [reflexivity|]. split; [simpl; lia|].
      rewrite H, sumRecorded_app, sumRecorded_one, Hrec0 in Hsum.
      rewrite snoc_two, !sumRecorded_app, !sumRecorded_one.
      unfold closeLap. rewrite Hopen, Hpend. simpl.
      lia.
    + now destruct init.
    + unfold openLapsAtZero in *. rewrite H in Hzero.
      apply Forall_app in Hzero as [Hinit _].
      apply Forall_app. split; [exact Hinit|].
      constructor; [|constructor; [reflexivity|constructor]].
      unfold closeLap. rewrite Hopen. simpl. discriminate.
  - discriminate.
  - (* quiet tick *)
    unfold afterDisplay. rewrite Hr. simpl in Hlast |- *.
    repeat (split; [assumption|]). split; [|auto].
    exists c. repeat split; auto; lia.
  - (* firing tick *)
    unfold afterDisplay. rewrite Hr. simpl in Hlast |- *.
    split; [exact Hr|]. split; [exact Hst|].
    assert (Hsame : recordedTime <$> init ++ [set_triggered true l]
                    = recordedTime <$> laps s)
      by (rewrite H, !fmap_app; reflexivity).
    split; [|split; [exact Hwf'|split]].
    + exists c. split; [exact Hc|]. split; [lia|].
      unfold sumRecorded in *. now rewrite Hsame.
    + now destruct init.
    + unfold openLapsAtZero in *. rewrite H in Hzero.
      apply Forall_app in Hzero as [Hinit Hl]. apply Forall_app.
      split; [exact Hinit|]. constructor; [|constructor].
      now apply Forall_inv in Hl.
  - (* duration edit *)
    apply index_Some in H as [_ H]. simpl.
    repeat (split; [assumption|]).
    split; [|split; [exact Hwf'|split]].
    + exists c. split; [exact Hc|]. split; [lia|].
      unfold sumRecorded in *. now rewrite (fmap_insert_same _ _ _ lap).
    + intros E. apply (f_equal length) in E. rewrite length_insert in E.
      now destruct (laps s).
    + unfold openLapsAtZero in *. apply Forall_insert; [exact Hzero|].
      rewrite Forall_lookup in Hzero. exact (Hzero _ _ H).
  - (* duration edit out of range *)
    repeat (split; [assumption|]). split; [|auto].
    exists c. repeat split; auto; lia.
  - (* toggle *)
    apply index_Some in H as [_ H]. simpl.
    repeat (split; [assumption|]).
    split; [|split; [exact Hwf'|split]].
    + exists c. split; [exact Hc|]. split; [lia|].
      unfold sumRecorded in *. now rewrite (fmap_insert_same _ _ _ lap).
    + intros E. apply (f_equal length) in E. rewrite length_insert in E.
      now destruct (laps s).
    + unfold openLapsAtZero in *. apply Forall_insert; [exact Hzero|].
      rewrite Forall_lookup in Hzero. exact (Hzero _ _ H).
  - (* toggle out of range *)
    repeat (split; [assumption|]). split; [|auto].
    exists c. repeat split; auto; lia.
Qed.

Lemma lapsAddUp_run t0 t acts s :
  forallb steady acts = true -> ascending t (flat_map readings acts) = true ->
  lapsAddUp t0 t s -> lapsAddUp t0 (latest t (flat_map readings acts)) (run acts s).
Proof.
  revert t s. induction acts as [|a acts IH]; intros t s Hsteady Hasc H; [exact H|].
  cbn [forallb flat_map] in *. apply andb_true_iff in Hsteady as [Ha Hacts].
  rewrite ascending_app in Hasc. apply andb_true_iff in Hasc as [Hasc1 Hasc2].
  cbn [run]. rewrite latest_app. apply IH; [exact Hacts|exact Hasc2|].
  now apply lapsAddUp_step.
Qed.

(** X14. As long as the stopwatch is not paused or reset after its
    first start, the wall clock does not go back, and each lap is
    recorded within one clock reading, the lap times add up: at every
    instant the elapsed time of the main stopwatch is the sum of the
    recorded lap times plus the elapsed time shown for the current
    lap. *)
Theorem lap_times_add_up t0 handle acts now :
  forallb steady acts = true ->
  ascending t0 (flat_map readings acts) = true ->
  let s := run (Start t0 t0 handle :: acts) initialState in
  exists current,
    currentLapElapsedTime now s = Some current /\
    mainElapsedTime now s = sumRecorded (laps s) + current.
Proof.
  intros Hsteady Hasc s. subst s. cbn [run perform].
  rewrite startStopwatch_paused by reflexivity. cbn [stateOf].
  assert (Hinit : lapsAddUp t0 t0
    {| isRunning := true; elapsedTime := elapsedTime initialState;
       startTime := Some (t0 - pausedTime initialState);
       pausedTime := pausedTime initialState;
       currentLapStartTime :=
         match currentLapStartTime initialState with
         | Some c => Some c | None => Some (t0 - pausedTime initialState) end;
       laps := match laps initialState with
               | [] => [newLap t0 60000] | _ :: _ => laps initialState end;
       intervalId := Some handle |}).
  { unfold lapsAddUp. simpl. split; [reflexivity|]. split; [f_equal; lia|].
    split; [exists (t0 - 0); split; [reflexivity|];
            split; [lia|rewrite sumRecorded_one; simpl; lia]|].
    split; [right; now exists 0%nat|]. split; [discriminate|].
    constructor; [reflexivity|constructor]. }
  destruct (lapsAddUp_run _ _ _ _ Hsteady Hasc Hinit)
    as (Hr & Hst & (c & Hc & _ & Hsum) & _).
  exists (now - c). unfold currentLapElapsedTime, mainElapsedTime.
  rewrite Hc, Hr, Hst, Hsum. simpl. split; [reflexivity|lia].
Qed.

Lemma lap_times_add_up_witness :
  let acts := [Tick 100 100 100; RecordLap 250 250 250; Tick 300 300 300;
               ToggleAlarm 0; RecordLap 400 400 400; Tick 500 500 500] in
  let s := run (Start 10 10 1 :: acts) initialState in
  forallb steady acts = true /\
  ascending 10 (flat_map readings acts) = true /\
  exists current,
    currentLapElapsedTime 600 s = Some current /\
    mainElapsedTime 600 s = sumRecorded (laps s) + current.
Proof.
  cbv zeta. split; [reflexivity|]. split; [reflexivity|].
  apply (lap_times_add_up 10 1
           [Tick 100 100 100; RecordLap 250 250 250; Tick 300 300 300;
            ToggleAlarm 0; RecordLap 400 400 400; Tick 500 500 500] 600);
    reflexivity.
Defined.

(** With a pause in between the sum is off by the length of the pause:
    after a pause from 1000 to 2000 the lap recorded at 3000 is given
    3000, although the stopwatch ran for 2000 only. *)
Example lap_times_with_a_pause :
  let s := run [Start 0 0 1; Tick 1000 1000 1000; Pause; Start 2000 2000 2;
                Tick 2970 2970 2970; RecordLap 3000 3000 3000] initialState in
  mainElapsedTime 3000 s = 2000 /\
  sumRecorded (laps s) = 3000 /\
  currentLapElapsedTime 3000 s = Some 0.
Proof. cbv zeta. repeat apply conj; vm_compute; reflexivity. Qed.

(** * The current lap display and the alarm evaluator *)

Lemma currentLapStartTime_afterDisplay now s :
  currentLapStartTime (afterDisplay now s) = currentLapStartTime s.
Proof. unfold afterDisplay. now destruct (isRunning s). Qed.

Lemma lapTimerAtLastLap_step a s :
  match a with
  | Start now1 now2 _ => now1 =? now2
  | RecordLap _ now2 now3 => isRunning s && (now2 =? now3)
  | _ => true
  end = true ->
  (neverStarted s \/ started s) /\ (isRunning s = true -> started s) /\
  elapsedTime s = pausedTime s ->
  lapTimerAtLastLap s -> lapTimerAtLastLap (stateOf (perform a s)).
Proof.
  intros Hcond Hinv Hk.
  pose proof (perform_Step a s) as Hstep.
  remember (stateOf (perform a s)) as s' eqn:Es'. clear Es'.
  remember (eventsOf (perform a s)) as evs eqn:Eevs. clear Eevs.
  destruct Hinv as (Hcase & Hrun & _).
  unfold lapTimerAtLastLap in *.
  destruct Hstep; simpl.
  - exact Hk.
  - (* start from a stopped clock *)
    apply Z.eqb_eq in Hcond. subst n2.
    destruct Hcase as [(_ & _ & _ & Hp & Hc & Hl)|(_ & (c & Hc) & Hne)].
    + rewrite Hc, Hl, Hp. simpl. f_equal. lia.
    + rewrite Hc. rewrite Hc in Hk. now destruct (laps s).
  - exact Hk.
  - exact Hk.
  - exact Hk.
  - destruct (Hrun H) as (_ & _ & Hne). contradiction.
  - (* next lap *)
    apply andb_true_iff in Hcond as [Hr Hn]. apply Z.eqb_eq in Hn. subst n3.
    now rewrite Hr, snoc_two, last_snoc.
  - reflexivity.
  - now rewrite currentLapStartTime_afterDisplay, laps_afterDisplay.
  - rewrite currentLapStartTime_afterDisplay, Hk, H, !last_snoc. reflexivity.
  - (* duration edit *)
    apply index_Some in H as [_ H].
    now rewrite Hk, <- !fmap_last, (fmap_insert_same createdAt _ _ lap).
  - exact Hk.
  - (* toggle *)
    apply index_Some in H as [_ H].
    now rewrite Hk, <- !fmap_last, (fmap_insert_same createdAt _ _ lap).
  - exact Hk.
Qed.

Lemma lapTimerAtLastLap_run acts s :
  lapsWhileRunning acts s = true ->
  (neverStarted s \/ started s) /\ (isRunning s = true -> started s) /\
  elapsedTime s = pausedTime s ->
  lapTimerAtLastLap s -> lapTimerAtLastLap (run acts s).
Proof.
  revert s. induction acts as [|a acts IH]; intros s Hacts Hinv Hk; [exact Hk|].
  cbn [lapsWhileRunning] in Hacts. apply andb_true_iff in Hacts as [Ha Hacts].
  cbn [run]. apply IH; [exact Hacts| |now apply lapTimerAtLastLap_step].
  exact (started_or_not_step _ _ _ _ (perform_Step a s) Hinv).
Qed.

(** X15. As long as every action stores one clock reading and laps are
    recorded only while the stopwatch runs, the current lap display
    shows the elapsed time the alarm evaluator compares with the alarm
    duration: the text written by [updateCurrentLapDisplay] is
    [formatTime] of [getLapElapsedTime] of the last lap, running or
    paused, and ["00:00:00"] when there is no lap. *)
Theorem current_lap_display_is_alarm_time acts now :
  lapsWhileRunning acts initialState = true ->
  let s := run acts initialState in
  match last (laps s) with
  | None => currentLapTimeText now s = "00:00:00"%string
  | Some _ =>
      exists elapsed,
        getLapElapsedTime now (activeIndex s) s = Returned elapsed s [] /\
        currentLapTimeText now s = formatTime elapsed
  end.
Proof.
  intros Hacts s.
  assert (Hinit : (neverStarted initialState \/ started initialState) /\
                  (isRunning initialState = true -> started initialState) /\
                  elapsedTime initialState = pausedTime initialState).
  { split; [left; repeat split|]. split; [discriminate|reflexivity]. }
  pose proof (lapTimerAtLastLap_run acts initialState Hacts Hinit eq_refl) as Hk.
  fold s in Hk. unfold lapTimerAtLastLap in Hk.
  unfold currentLapTimeText, currentLapElapsedTime. rewrite Hk.
  destruct (snoc_cases (laps s)) as [Hl|(init & l & Hl)].
  - now rewrite Hl.
  - assert (Hidx : index (laps s) (activeIndex s) = Some l)
      by (unfold activeIndex; rewrite Hl; apply index_last).
    replace (last (laps s)) with (Some l)
      by (rewrite Hl; symmetry; apply last_snoc).
    simpl. eexists. split; [apply (getLapElapsedTime_at _ _ _ _ Hidx)|].
    unfold mainElapsedTime. f_equal.
    destruct (isRunning s); f_equal; lia.
Qed.

Lemma current_lap_display_is_alarm_time_witness :
  let acts := [Start 0 0 1; Tick 100 100 100; RecordLap 200 200 200; Pause;
               Start 900 900 2; Tick 1000 1000 1000] in
  let s := run acts initialState in
  lapsWhileRunning acts initialState = true /\
  match last (laps s) with
  | None => currentLapTimeText 1000 s = "00:00:00"%string
  | Some _ =>
      exists elapsed,
        getLapElapsedTime 1000 (activeIndex s) s = Returned elapsed s [] /\
        currentLapTimeText 1000 s = formatTime elapsed
  end.
Proof.
  cbv zeta. split; [reflexivity|].
  apply (current_lap_display_is_alarm_time
           [Start 0 0 1; Tick 100 100 100; RecordLap 200 200 200; Pause;
            Start 900 900 2; Tick 1000 1000 1000] 1000).
  reflexivity.
Defined.

(** A lap recorded during a pause breaks the agreement: after the
    resume at 12000 the display shows eleven seconds, the alarm
    evaluator compares ten. *)
Example display_after_paused_lap :
  let s := run (lapWhilePaused ++ [Start 12000 12000 2]) initialState in
  currentLapTimeText 12000 s = "00:00:11"%string /\
  valueOf (getLapElapsedTime 12000 (activeIndex s) s) = Some 10000.
Proof. cbv zeta. repeat apply conj; vm_compute; reflexivity. Qed.

(** * When the alarm of the current lap sounds *)

(** X16. While the stopwatch runs, a tick sounds the alarm of the last
    lap, if that lap is enabled and has not fired, exactly when the
    clock reading of the evaluation is at least [alarmDuration] after
    the lap's [createdAt]: only wall-clock time since the creation of
    the lap counts, whatever pauses lie in between. *)
Theorem alarm_sounds_by_wall_clock now1 now2 now3 s init l :
  isRunning s = true -> laps s = init ++ [l] ->
  enabled l = true -> triggered l = false ->
  existsb isAudioPlay (eventsOf (perform (Tick now1 now2 now3) s))
  = (alarmDuration l <=? Z.max 0 (now3 - createdAt l)).
Proof.
  intros Hr Hl He Ht. cbn [perform]. rewrite tick_closed.
  rewrite (checkLapAlarms_last _ _ init l) by (now rewrite laps_afterDisplay).
  rewrite He, Ht. cbn [negb orb].
  unfold mainElapsedTime. rewrite isRunning_afterDisplay, Hr.
  replace (startTime (afterDisplay now1 s)) with (startTime s)
    by (unfold afterDisplay; now rewrite Hr).
  replace (now3 - toNumber (startTime s) - (createdAt l - toNumber (startTime s)))
    with (now3 - createdAt l) by lia.
  now destruct (alarmDuration l <=? _).
Qed.

Lemma alarm_sounds_by_wall_clock_witness :
  let s := run [Start 0 0 1; Tick 1000 1000 1000; Pause; Start 50000 50000 2]
               initialState in
  isRunning s = true /\ laps s = [] ++ [newLap 0 60000] /\
  enabled (newLap 0 60000) = true /\ triggered (newLap 0 60000) = false /\
  existsb isAudioPlay (eventsOf (perform (Tick 60000 60000 60000) s))
  = (alarmDuration (newLap 0 60000) <=? Z.max 0 (60000 - createdAt (newLap 0 60000))).
Proof.
  cbv zeta. do 4 (split; [reflexivity|]).
  apply (alarm_sounds_by_wall_clock 60000 60000 60000
           (run [Start 0 0 1; Tick 1000 1000 1000; Pause; Start 50000 50000 2]
                initialState) [] (newLap 0 60000)); reflexivity.
Defined.

(** * A tick repeated *)

Lemma afterDisplay_twice now s : afterDisplay now (afterDisplay now s) = afterDisplay now s.
Proof. unfold afterDisplay. destruct (isRunning s) eqn:E; simpl; now rewrite ?E. Qed.

Lemma afterDisplay_set_laps now ls s :
  afterDisplay now (set_laps ls (afterDisplay now s)) = set_laps ls (afterDisplay now s).
Proof. unfold afterDisplay. destruct (isRunning s) eqn:E; simpl; now rewrite ?E. Qed.

(** X17. A tick repeated with the same clock readings does nothing: the
    state stays as the first tick left it and no call is made, so an
    alarm that the first tick sounded is not sounded again. *)
Theorem tick_repeated now1 now2 now3 s :
  let s1 := stateOf (tick now1 now2 now3 s) in
  tick now1 now2 now3 s1 = Returned tt s1 [].
Proof.
  cbv zeta. rewrite !tick_closed.
  pose proof (laps_afterDisplay now1 s) as Hd.
  destruct (snoc_cases (laps s)) as [Hl|(init & l & Hl)].
  - rewrite (checkLapAlarms_empty now3 (afterDisplay now1 s)) by congruence.
    cbn [stateOf].
    rewrite afterDisplay_twice. apply checkLapAlarms_empty. congruence.
  - rewrite (checkLapAlarms_last now3 (afterDisplay now1 s) init l) by congruence.
    destruct (negb (enabled l) || triggered l) eqn:Hq.
    + cbn [stateOf]. rewrite afterDisplay_twice.
      rewrite (checkLapAlarms_last _ _ init l) by congruence. now rewrite Hq.
    + destruct (alarmDuration l <=? _) eqn:Hdue.
      * cbn [stateOf]. rewrite afterDisplay_set_laps.
        rewrite (checkLapAlarms_last _ _ init (set_triggered true l)) by reflexivity.
        cbn [triggered set_triggered]. now rewrite orb_true_r.
      * cbn [stateOf]. rewrite afterDisplay_twice.
        rewrite (checkLapAlarms_last _ _ init l) by congruence.
        now rewrite Hq, Hdue.
Qed.

(** * The ledger between resets *)

Lemma createdAt_closeLap r l : createdAt (closeLap r l) = createdAt l.
Proof. unfold closeLap. now destruct (isRecorded l). Qed.

Lemma append_only_step a ls ls' sounded :
  LedgerChange a ls ls' sounded -> notReset a = true ->
  exists more, createdAt <$> ls' = (createdAt <$> ls) ++ more.
Proof.
  intros Hstep Hnr.
  destruct Hstep as [ls| ls Ha | now d | init l r now d _ | init l He Ht
                    | ls j lap d Ha Hj | ls j lap Ha Hj].
  - exists []. now rewrite app_nil_r.
  - subst a. discriminate.
  - now exists [now].
  - exists [now]. rewrite snoc_two, !fmap_app. simpl.
    now rewrite createdAt_closeLap.
  - exists []. now rewrite app_nil_r, !fmap_app.
  - apply index_Some in Hj as [_ Hj]. exists [].
    now rewrite app_nil_r, (fmap_insert_same createdAt _ _ lap).
  - apply index_Some in Hj as [_ Hj]. exists [].
    now rewrite app_nil_r, (fmap_insert_same createdAt _ _ lap).
Qed.

(** X18. Between resets the ledger only grows at its end: after any
    sequence of actions without a reset, from any state, the creation
    times of the laps that were there are still there, at the same
    positions, followed by those of the laps created since. *)
Theorem ledger_append_only acts s :
  forallb notReset acts = true ->
  exists more, createdAt <$> laps (run acts s) = (createdAt <$> laps s) ++ more.
Proof.
  revert s. induction acts as [|a acts IH]; intros s Hacts.
  - exists []. now rewrite app_nil_r.
  - cbn [forallb] in Hacts. apply andb_true_iff in Hacts as [Ha Hacts].
    destruct (append_only_step _ _ _ _ (perform_ledger a s) Ha) as [m1 H1].
    destruct (IH (stateOf (perform a s)) Hacts) as [m2 H2].
    exists (m1 ++ m2). cbn [run]. now rewrite H2, H1, app_assoc.
Qed.

Lemma ledger_append_only_witness :
  let acts := [RecordLap 10 10 10; Tick 20 20 20; ToggleAlarm 0; Pause;
               RecordLap 30 30 30] in
  let s := run [Start 0 0 1] initialState in
  forallb notReset acts = true /\
  exists more, createdAt <$> laps (run acts s) = (createdAt <$> laps s) ++ more.
Proof.
  cbv zeta. split; [reflexivity|].
  apply (ledger_append_only
           [RecordLap 10 10 10; Tick 20 20 20; ToggleAlarm 0; Pause;
            RecordLap 30 30 30]
           (run [Start 0 0 1] initialState)).
  reflexivity.
Defined.

(** * Laps in chronological order *)

Lemma ledgerInOrder_later t t' ls :
  t <= t' -> ledgerInOrder t ls -> ledgerInOrder t' ls.
Proof.
  unfold ledgerInOrder, chronological. intros Ht.
  destruct (createdAt <$> ls) as [|c cs]; [reflexivity|].
  cbn [app]. rewrite !ascending_app. cbn [ascending].
  rewrite !andb_true_r. intros [H1 H2]%andb_true_iff.
  rewrite H1. apply Z.leb_le in H2. apply Z.leb_le. lia.
Qed.

Lemma ledgerInOrder_snoc t n t' ls lap :
  t <= n -> n <= t' -> createdAt lap = n ->
  ledgerInOrder t ls -> ledgerInOrder t' (ls ++ [lap]).
Proof.
  unfold ledgerInOrder, chronological. intros Hn Ht' Hc.
  rewrite fmap_app. cbn [fmap list_fmap]. rewrite Hc.
  destruct (createdAt <$> ls) as [|c cs].
  - intros _. cbn. rewrite andb_true_r. now apply Z.leb_le.
  - cbn [app]. rewrite <- app_assoc. rewrite !ascending_app. cbn [app ascending].
    rewrite !andb_true_r. intros [H1 H2]%andb_true_iff.
    rewrite H1. apply Z.leb_le in H2. cbn [andb latest].
    apply andb_true_iff. split; apply Z.leb_le; lia.
Qed.

Lemma ledgerInOrder_same t ls ls' :
  createdAt <$> ls' = createdAt <$> ls -> ledgerInOrder t ls -> ledgerInOrder t ls'.
Proof. unfold ledgerInOrder. now intros ->. Qed.

Lemma ledgerInOrder_step t a s s' evs :
  Step a s s' evs -> ascending t (readings a) = true ->
  ledgerInOrder t (laps s) -> ledgerInOrder (latest t (readings a)) (laps s').
Proof.
  intros Hstep Hasc Hinv.
  pose proof (ascending_latest _ _ Hasc) as Hlast.
  pose proof (ledgerInOrder_later _ _ _ Hlast Hinv) as Hinv'.
  destruct Hstep; try exact Hinv'.
  - (* start from a stopped clock *)
    cbn in Hasc, Hlast |- *.
    apply andb_true_iff in Hasc as [H1 H2]. apply andb_true_iff in H2 as [H2 _].
    apply Z.leb_le in H1, H2.
    destruct (laps s) eqn:E; [|exact Hinv'].
    apply (ledgerInOrder_snoc t n2 n2 [] (newLap n2 60000)); auto; lia.
  - (* first lap *)
    cbn in Hasc, Hlast |- *.
    apply andb_true_iff in Hasc as [H1 H2]. apply andb_true_iff in H2 as [H2 H3].
    apply andb_true_iff in H3 as [H3 _]. apply Z.leb_le in H1, H2, H3.
    apply (ledgerInOrder_snoc t n2 n3 [] (newLap n2 60000)); auto;
      [lia|now rewrite <- H0].
  - (* next lap *)
    cbn in Hasc, Hlast |- *.
    apply andb_true_iff in Hasc as [H1 H2]. apply andb_true_iff in H2 as [H2 H3].
    apply andb_true_iff in H3 as [H3 _]. apply Z.leb_le in H1, H2, H3.
    rewrite snoc_two.
    apply (ledgerInOrder_snoc t n2 n3); [lia|lia|reflexivity|].
    apply (ledgerInOrder_same _ (laps s)); [|exact Hinv].
    rewrite H, !fmap_app. cbn. now rewrite createdAt_closeLap.
  - (* reset *)
    reflexivity.
  - (* quiet tick *)
    now rewrite laps_afterDisplay.
  - (* firing tick *)
    apply (ledgerInOrder_same _ (laps s)); [|exact Hinv'].
    cbn. now rewrite H, !fmap_app.
  - (* duration edit *)
    apply index_Some in H as [_ H].
    apply (ledgerInOrder_same _ (laps s)); [|exact Hinv'].
    cbn. now apply (fmap_insert_same createdAt _ _ lap).
  - (* toggle *)
    apply index_Some in H as [_ H].
    apply (ledgerInOrder_same _ (laps s)); [|exact Hinv'].
    cbn. now apply (fmap_insert_same createdAt _ _ lap).
Qed.

(** X19. When the wall clock never goes back, the laps of the ledger
    are in chronological order: their creation times are ascending, and
    none is later than the latest clock reading. *)
Theorem laps_in_chronological_order t0 acts :
  ascending t0 (flat_map readings acts) = true ->
  chronological
    ((createdAt <$> laps (run acts initialState))
       ++ [latest t0 (flat_map readings acts)]) = true.
Proof.
  intros Hasc.
  assert (Hinit : ledgerInOrder t0 (laps initialState)) by reflexivity.
  revert Hasc Hinit. generalize initialState, t0.
  induction acts as [|a acts IH]; intros s t Hasc Hinv; [exact Hinv|].
  cbn [flat_map] in *. rewrite ascending_app in Hasc.
  apply andb_true_iff in Hasc as [Ha Hacts].
  cbn [run]. rewrite latest_app. apply IH; [exact Hacts|].
  exact (ledgerInOrder_step _ _ _ _ _ (perform_Step a s) Ha Hinv).
Qed.

Lemma laps_in_chronological_order_witness :
  let acts := [Start 5 6 1; RecordLap 10 11 12; Pause; RecordLap 20 21 22;
               Start 30 31 2; Tick 40 41 42; RecordLap 50 51 52] in
  ascending 0 (flat_map readings acts) = true /\
  chronological
    ((createdAt <$> laps (run acts initialState))
       ++ [latest 0 (flat_map readings acts)]) = true.
Proof.
  cbv zeta. split; [reflexivity|].
  apply (laps_in_chronological_order 0
           [Start 5 6 1; RecordLap 10 11 12; Pause; RecordLap 20 21 22;
            Start 30 31 2; Tick 40 41 42; RecordLap 50 51 52]).
  reflexivity.
Defined.
